(** * Coulomb-counting battery monitor (battery.ino): model and properties

    The sketch runs on an ESP32.  Its [float] is IEEE-754 binary32, its
    [double] is binary64, [int] and [long] are 32-bit two's complement and
    [unsigned long] is 32-bit.  Floating-point operations are the ones of
    the Standard Library's executable IEEE-754 specification [SpecFloat]
    (round to nearest, ties to even), instantiated at both formats. *)

From Stdlib Require Import ZArith List Bool Lia QArith Qpower.
From Stdlib Require Import Floats.SpecFloat.
Import ListNotations.

Local Open Scope Z_scope.

(** ** C numeric types *)

Module C.

(** [float] and [double] values; one inductive covers both formats, the
    format is chosen by the operation. *)
Definition float := spec_float.
Definition double := spec_float.

Definition fprec : Z := 24.
Definition femax : Z := 128.
Definition dprec : Z := 53.
Definition demax : Z := 1024.

(** Conversion to a format: rounds the exact value of [x]. *)
Definition convert (prec emax : Z) (x : spec_float) : spec_float :=
  match x with
  | S754_finite s m e => binary_round prec emax s m e
  | _ => x
  end.

Definition float_of_double (x : double) : float := convert fprec femax x.
Definition double_of_float (x : float) : double := convert dprec demax x.
Definition double_of_int (z : Z) : double := binary_normalize dprec demax z 0 false.
Definition float_of_int (z : Z) : float := binary_normalize fprec femax z 0 false.

Definition fadd : float -> float -> float := SFadd fprec femax.
Definition fsub : float -> float -> float := SFsub fprec femax.
Definition fmul : float -> float -> float := SFmul fprec femax.
Definition fdiv : float -> float -> float := SFdiv fprec femax.
Definition dmul : double -> double -> double := SFmul dprec demax.
Definition ddiv : double -> double -> double := SFdiv dprec demax.

Definition flt (x y : spec_float) : bool := SFltb x y.
Definition fle (x y : spec_float) : bool := SFleb x y.
Definition feq (x y : spec_float) : bool := SFeqb x y.
Definition isnan (x : spec_float) : bool :=
  match x with S754_nan => true | _ => false end.

(** [abs] on a float ([std::abs] of the ESP32 core): clears the sign. *)
Definition fabs (x : float) : float := SFabs x.

(** A decimal literal [num/den] (with [den] a power of ten) is the double
    nearest to it: both integers are exact doubles and the division is
    correctly rounded. *)
Definition double_lit (num den : Z) : double :=
  ddiv (double_of_int num) (double_of_int den).

(** 32-bit integers. *)
Definition wrap_int (z : Z) : Z := (z + 2^31) mod 2^32 - 2^31.
Definition wrap_ulong (z : Z) : Z := z mod 2^32.

End C.
Import C.

(** ** The sketch

    The repository holds two versions of the sketch.  [SketchA] is the main
    one (EEPROM persistence, temperature probe, dead zone on); [SketchB] is
    the diagnostic one (no persistence, dead zone commented out,
    more samples).  What they share is written once, what differs is a
    function of the version. *)

Inductive Sketch := SketchA | SketchB.

Module Battery.

(** *** Constants *)

(** [const float BATTERY_FULL_CAPACITY = 12.064;] ([BATTERY_CAPACITY_Ah]) *)
Definition BATTERY_FULL_CAPACITY : float :=
  Eval vm_compute in float_of_double (double_lit 12064 1000).
(** [const float VOLTAGE_CORRECTION = 5.423;] ([VOLTAGE_DIVIDER_RATIO]) *)
Definition VOLTAGE_CORRECTION : float :=
  Eval vm_compute in float_of_double (double_lit 5423 1000).
(** [const float CURRENT_SENSITIVITY = 0.185;] ([ACS712_SENSITIVITY]) *)
Definition CURRENT_SENSITIVITY : float :=
  Eval vm_compute in float_of_double (double_lit 185 1000).
(** [const float ESP32_VOLTAGE = 3.3;] ([ADC_REFERENCE_VOLTAGE]) *)
Definition ESP32_VOLTAGE : float :=
  Eval vm_compute in float_of_double (double_lit 33 10).
(** The literal [4095.0]. *)
Definition ADC_MAX : double := Eval vm_compute in double_lit 4095 1.
(** The literal [100.0]. *)
Definition HUNDRED : double := Eval vm_compute in double_lit 100 1.
(** The integer [0] converted to [float] ([x < 0], [x = 0]) and [0.0]. *)
Definition fzero : float := Eval vm_compute in float_of_int 0.

(** [#define SAMPLES_TO_AVERAGE 200] / [#define CURRENT_AVG_SAMPLES 400] *)
Definition SAMPLES_TO_AVERAGE (sk : Sketch) : nat :=
  match sk with SketchA => 200 | SketchB => 400 end.

(** The loop bound of the calibration: 500 / 1000. *)
Definition CALIBRATION_SAMPLES (sk : Sketch) : nat :=
  match sk with SketchA => 500 | SketchB => 1000 end.

(** [const float CURRENT_NOISE_THRESHOLD = 0.05;] /
    [const float CURRENT_DEAD_ZONE = 0.04;] *)
Definition CURRENT_NOISE_THRESHOLD_A : float :=
  Eval vm_compute in float_of_double (double_lit 5 100).
Definition CURRENT_DEAD_ZONE_B : float :=
  Eval vm_compute in float_of_double (double_lit 4 100).
Definition CURRENT_NOISE_THRESHOLD (sk : Sketch) : float :=
  match sk with
  | SketchA => CURRENT_NOISE_THRESHOLD_A
  | SketchB => CURRENT_DEAD_ZONE_B
  end.

(** The dead-zone [if] is live in [SketchA] and commented out in [SketchB]. *)
Definition deadZoneEnabled (sk : Sketch) : bool :=
  match sk with SketchA => true | SketchB => false end.

(** [float timePassedInHours = 1.0 / 3600.0;] /
    [float deltaTime_hours = 1000.0 / 3600000.0;] *)
Definition timePassedInHours_A : float :=
  Eval vm_compute in float_of_double (ddiv (double_lit 1 1) (double_lit 3600 1)).
Definition deltaTime_hours_B : float :=
  Eval vm_compute in
    float_of_double (ddiv (double_lit 1000 1) (double_lit 3600000 1)).
Definition timePassedInHours (sk : Sketch) : float :=
  match sk with
  | SketchA => timePassedInHours_A
  | SketchB => deltaTime_hours_B
  end.

(** Only [SketchA] has the EEPROM and the temperature probe. *)
Definition usesEEPROM (sk : Sketch) : bool :=
  match sk with SketchA => true | SketchB => false end.
Definition usesTempProbe (sk : Sketch) : bool :=
  match sk with SketchA => true | SketchB => false end.

(** *** The EEPROM and the object representation of a [float] *)

(** Bit pattern of a binary32 value (the single NaN of the model is the
    quiet NaN [0x7FC00000]). *)
Definition bits_of_float (x : float) : Z :=
  match x with
  | S754_zero s => if s then 2^31 else 0
  | S754_infinity s => (if s then 2^31 else 0) + 255 * 2^23
  | S754_nan => 255 * 2^23 + 2^22
  | S754_finite s m e =>
      (if s then 2^31 else 0) +
      (if Zpos m <? 2^23 then Zpos m else (e + 150) * 2^23 + (Zpos m - 2^23))
  end.

Definition float_of_bits (b : Z) : float :=
  let s := Z.testbit b 31 in
  let E := (b / 2^23) mod 256 in
  let f := b mod 2^23 in
  if E =? 0 then
    match f with Zpos m => S754_finite s m (-149) | _ => S754_zero s end
  else if E =? 255 then
    if f =? 0 then S754_infinity s else S754_nan
  else
    match f + 2^23 with Zpos m => S754_finite s m (E - 150) | _ => S754_nan end.

(** Four bytes, lowest address first (the ESP32 is little-endian). *)
Definition bytes4 : Type := Z * Z * Z * Z.

Definition bytes_of_word (w : Z) : bytes4 :=
  (w mod 256, (w / 2^8) mod 256, (w / 2^16) mod 256, (w / 2^24) mod 256).

Definition word_of_bytes (b : bytes4) : Z :=
  let '(b0, b1, b2, b3) := b in
  b0 mod 256 + (b1 mod 256) * 2^8 + (b2 mod 256) * 2^16 + (b3 mod 256) * 2^24.

(** The ESP32 [EEPROM] object: a RAM mirror of the flash sector; [get] and
    [put] work on the mirror, [commit] writes it back.  Only the mirror is
    lost when power goes. *)
Record EEPROMClass := { mirror : bytes4; flash : bytes4 }.

Definition EEPROM_begin (fl : bytes4) : EEPROMClass :=
  {| mirror := fl; flash := fl |}.
Definition EEPROM_get (e : EEPROMClass) : float :=
  float_of_bits (word_of_bytes (mirror e)).
Definition EEPROM_put (x : float) (e : EEPROMClass) : EEPROMClass :=
  {| mirror := bytes_of_word (bits_of_float x); flash := flash e |}.
Definition EEPROM_commit (e : EEPROMClass) : EEPROMClass :=
  {| mirror := mirror e; flash := mirror e |}.

(** *** State, inputs and outputs *)

(** The global variables ([SketchB] names them [zeroCurrentVoltage],
    [remainingCapacity_Ah] and [lastTime]). *)
Record State := {
  noLoadVoltage : float;
  batteryJuiceLeft : float;
  timeOfLastCheck : Z;
  timeOfLastSave : Z;
  EEPROM : EEPROMClass
}.

(** What the world sees. *)
Inductive Effect :=
| Calibrated (zero : float)
| Report (volts amps soc : float) (temp : option float)
| Saved (b : bytes4).

(** *** Sampling *)

(** [long total = 0; for (i = 0; i < n; i++) total += analogRead(pin);]
    where [read i] is what the [i]-th [analogRead] returns. *)
Fixpoint sum_samples (read : nat -> Z) (n : nat) : Z :=
  match n with
  | O => 0
  | S k => wrap_int (sum_samples read k + read k)
  end.

(** [int avg = total / n;] (C division truncates toward zero). *)
Definition average (read : nat -> Z) (n : nat) : Z :=
  wrap_int (Z.quot (sum_samples read n) (Z.of_nat n)).

(** [(raw / 4095.0) * ESP32_VOLTAGE], stored in a [float]. *)
Definition adc_to_volts (raw : Z) : float :=
  float_of_double (dmul (ddiv (double_of_int raw) ADC_MAX)
                        (double_of_float ESP32_VOLTAGE)).

Definition readVoltage (raw : Z) : float :=
  fmul (adc_to_volts raw) VOLTAGE_CORRECTION.

Definition readAveragedCurrentVoltage (sk : Sketch) (read : nat -> Z) : float :=
  adc_to_volts (average read (SAMPLES_TO_AVERAGE sk)).

(** *** Calibration: [zeroOutCurrentSensor] / [recalibrateCurrentSensor] *)

Definition zeroOutCurrentSensor (sk : Sketch) (read : nat -> Z) (s : State)
  : State * list Effect :=
  let avgReading := average read (CALIBRATION_SAMPLES sk) in
  let v := adc_to_volts avgReading in
  ({| noLoadVoltage := v;
      batteryJuiceLeft := batteryJuiceLeft s;
      timeOfLastCheck := timeOfLastCheck s;
      timeOfLastSave := timeOfLastSave s;
      EEPROM := EEPROM s |},
   [Calibrated v]).

(** *** One tick: the body of the once-per-second [if] of [loop] *)

Definition computeAmps (noLoad currentSensorVoltage : float) : float :=
  fdiv (fsub noLoad currentSensorVoltage) CURRENT_SENSITIVITY.

(** [if (abs(amps) < CURRENT_NOISE_THRESHOLD) amps = 0.0;] *)
Definition deadZone (sk : Sketch) (amps : float) : float :=
  if deadZoneEnabled sk && flt (fabs amps) (CURRENT_NOISE_THRESHOLD sk)
  then fzero else amps.

(** [if (x < 0) x = 0; if (x > FULL) x = FULL;] *)
Definition clampJuice (x : float) : float :=
  let x := if flt x fzero then fzero else x in
  if flt BATTERY_FULL_CAPACITY x then BATTERY_FULL_CAPACITY else x.

(** [(batteryJuiceLeft / BATTERY_FULL_CAPACITY) * 100.0], stored in a [float]. *)
Definition stateOfCharge (juice : float) : float :=
  float_of_double (dmul (double_of_float (fdiv juice BATTERY_FULL_CAPACITY)) HUNDRED).

Record Sensors := {
  rawVoltageReading : Z;
  currentSamples : nat -> Z;
  tempC : float
}.

Definition tick (sk : Sketch) (now : Z) (x : Sensors) (s : State)
  : State * list Effect :=
  let actualBatteryVoltage := readVoltage (rawVoltageReading x) in
  let currentSensorVoltage := readAveragedCurrentVoltage sk (currentSamples x) in
  let amps := computeAmps (noLoadVoltage s) currentSensorVoltage in
  let amps := deadZone sk amps in
  let ampsUsed := fmul amps (timePassedInHours sk) in
  let juice := clampJuice (fsub (batteryJuiceLeft s) ampsUsed) in
  let stateOfChargePercent := stateOfCharge juice in
  ({| noLoadVoltage := noLoadVoltage s;
      batteryJuiceLeft := juice;
      timeOfLastCheck := now;
      timeOfLastSave := timeOfLastSave s;
      EEPROM := EEPROM s |},
   [Report actualBatteryVoltage amps stateOfChargePercent
           (if usesTempProbe sk then Some (tempC x) else None)]).

(** *** Saving: the once-per-minute [if] of [loop] *)

Definition save (now : Z) (s : State) : State * list Effect :=
  let e := EEPROM_commit (EEPROM_put (batteryJuiceLeft s) (EEPROM s)) in
  ({| noLoadVoltage := noLoadVoltage s;
      batteryJuiceLeft := batteryJuiceLeft s;
      timeOfLastCheck := timeOfLastCheck s;
      timeOfLastSave := now;
      EEPROM := e |},
   [Saved (flash e)]).

(** *** [loop] *)

(** What one pass of [loop] reads from the world: the button, the clock
    (each call of [millis], an [unsigned long]) and the sensors.  The wait
    for the button's release changes no variable; the button is taken to be
    released eventually. *)
Record LoopInput := {
  buttonLow : bool;
  calibrationSamples : nat -> Z;
  millisAtCheck : Z;
  millisAtStamp : Z;
  sensors : Sensors;
  millisAtSaveCheck : Z;
  millisAtSaveStamp : Z
}.

(** [millis() - last >= interval] on [unsigned long]. *)
Definition elapsed (now last interval : Z) : bool :=
  interval <=? wrap_ulong (now - last).

Definition loop (sk : Sketch) (i : LoopInput) (s : State) : State * list Effect :=
  let '(s1, out1) :=
    if buttonLow i then zeroOutCurrentSensor sk (calibrationSamples i) s
    else (s, []) in
  let '(s2, out2) :=
    if elapsed (millisAtCheck i) (timeOfLastCheck s1) 1000
    then tick sk (wrap_ulong (millisAtStamp i)) (sensors i) s1
    else (s1, []) in
  let '(s3, out3) :=
    if usesEEPROM sk && elapsed (millisAtSaveCheck i) (timeOfLastSave s2) 60000
    then save (wrap_ulong (millisAtSaveStamp i)) s2
    else (s2, []) in
  (s3, out1 ++ out2 ++ out3).

(** *** [setup] and the whole machine *)

Record SetupInput := {
  flashContent : bytes4;
  displayBegins : bool;
  startupSamples : nat -> Z;
  millisAtStart : Z;
  millisAtStart' : Z
}.

(** [setup] either returns, and [loop] runs forever after, or it spins in
    [while (true);] and nothing runs again. *)
Inductive Machine :=
| Frozen (s : State)
| Running (s : State).

Definition machineState (m : Machine) : State :=
  match m with Frozen s => s | Running s => s end.

(** The value of [batteryJuiceLeft] after the EEPROM check of [setup];
    [SketchB] starts from its initialiser. *)
Definition initialJuice (sk : Sketch) (e : EEPROMClass) : float :=
  if usesEEPROM sk then
    let loaded := EEPROM_get e in
    if isnan loaded || flt loaded fzero || flt BATTERY_FULL_CAPACITY loaded
    then BATTERY_FULL_CAPACITY else loaded
  else BATTERY_FULL_CAPACITY.

Definition setup (sk : Sketch) (i : SetupInput) : Machine * list Effect :=
  let e := EEPROM_begin (flashContent i) in
  let s0 := {| noLoadVoltage := fzero;
               batteryJuiceLeft := initialJuice sk e;
               timeOfLastCheck := 0;
               timeOfLastSave := 0;
               EEPROM := e |} in
  if displayBegins i then
    let '(s1, out) := zeroOutCurrentSensor sk (startupSamples i) s0 in
    (Running {| noLoadVoltage := noLoadVoltage s1;
                batteryJuiceLeft := batteryJuiceLeft s1;
                timeOfLastCheck := wrap_ulong (millisAtStart i);
                timeOfLastSave := wrap_ulong (millisAtStart' i);
                EEPROM := EEPROM s1 |}, out)
  else (Frozen s0, []).

(** One pass of the main loop of the Arduino runtime. *)
Definition step (sk : Sketch) (i : LoopInput) (m : Machine) : Machine * list Effect :=
  match m with
  | Frozen s => (Frozen s, [])
  | Running s => let '(s', out) := loop sk i s in (Running s', out)
  end.

(** The machine and everything it emitted after the passes [inputs]. *)
Fixpoint run (sk : Sketch) (inputs : list LoopInput) (m : Machine) : Machine * list Effect :=
  match inputs with
  | [] => (m, [])
  | i :: rest =>
      let '(m1, out1) := step sk i m in
      let '(m2, out2) := run sk rest m1 in
      (m2, out1 ++ out2)
  end.

(** Power is cut and restored: the flash content is what survives. *)
Definition powerCycle (sk : Sketch) (m : Machine) (i : SetupInput) : Machine * list Effect :=
  setup sk {| flashContent := flash (EEPROM (machineState m));
              displayBegins := displayBegins i;
              startupSamples := startupSamples i;
              millisAtStart := millisAtStart i;
              millisAtStart' := millisAtStart' i |}.

End Battery.
Import Battery.

(** ** The estimator as the specification words it

    The steps of the per-tick algorithm and the mean of a burst of samples,
    written from the specification, to be compared with the sketch. *)

Module Spec.

(** [current = (zeroOffsetVoltage - currentSensorVoltage) / sensorSensitivity] *)
Definition current (zeroOffsetVoltage currentSensorVoltage sensorSensitivity : float)
  : float :=
  fdiv (fsub zeroOffsetVoltage currentSensorVoltage) sensorSensitivity.

(** If [|current| < noiseThreshold], treat [current] as exactly [0]. *)
Definition deadZoneFilter (enabled : bool) (noiseThreshold current : float) : float :=
  if enabled then
    if flt (fabs current) noiseThreshold then fzero else current
  else current.

(** One nominal second, in hours. *)
Definition oneSecondInHours : float :=
  float_of_double (ddiv (double_of_int 1) (double_of_int 3600)).

(** [chargeDeltaAh = current * (dt in hours)] *)
Definition chargeDeltaAh (current dtHours : float) : float := fmul current dtHours.

(** Clamp to [[lo, hi]]. *)
Definition clamp (lo hi x : float) : float :=
  if flt x lo then lo else if flt hi x then hi else x.

(** [stateOfChargePercent = remainingCapacityAh / fullCapacityAh * 100] *)
Definition stateOfChargePercent (remainingCapacityAh fullCapacityAh : float) : float :=
  float_of_double
    (dmul (double_of_float (fdiv remainingCapacityAh fullCapacityAh))
          (double_of_int 100)).

(** The sum of the first [n] samples, as a mathematical integer. *)
Fixpoint total (read : nat -> Z) (n : nat) : Z :=
  match n with
  | O => 0
  | S k => total read k + read k
  end.

(** The arithmetic mean of the samples, kept with its fraction, converted
    to volts by [(raw / maxCount) * referenceVoltage]. *)
Definition meanVolts (read : nat -> Z) (n : nat) : float :=
  float_of_double
    (dmul (ddiv (ddiv (double_of_int (total read n)) (double_of_int (Z.of_nat n)))
                ADC_MAX)
          (double_of_float ESP32_VOLTAGE)).

End Spec.

(** ** Sample runs *)

Module Examples.

(** A freshly calibrated state with a full battery, three seconds after
    power-up. *)
Definition fullState : State :=
  {| noLoadVoltage := adc_to_volts 2048;
     batteryJuiceLeft := BATTERY_FULL_CAPACITY;
     timeOfLastCheck := 3000;
     timeOfLastSave := 3000;
     EEPROM := EEPROM_begin (255, 255, 255, 255) |}.

(** The sensor sits 48 counts below its zero point: about 0.21 A flow out. *)
Definition discharging : Sensors :=
  {| rawVoltageReading := 2000;
     currentSamples := fun _ => 2000;
     tempC := float_of_int 21 |}.

(** A pass of [loop] at clock value [now] with the button up. *)
Definition passAt (now : Z) : LoopInput :=
  {| buttonLow := false;
     calibrationSamples := fun _ => 2048;
     millisAtCheck := now;
     millisAtStamp := now;
     sensors := discharging;
     millisAtSaveCheck := now;
     millisAtSaveStamp := now |}.

(** A pass with the button held down. *)
Definition buttonPass (now : Z) : LoopInput :=
  {| buttonLow := true;
     calibrationSamples := fun _ => 2050;
     millisAtCheck := now;
     millisAtStamp := now;
     sensors := discharging;
     millisAtSaveCheck := now;
     millisAtSaveStamp := now |}.

(** Power-up with the given flash content and display. *)
Definition powerUp (fl : bytes4) (display : bool) : SetupInput :=
  {| flashContent := fl;
     displayBegins := display;
     startupSamples := fun _ => 2048;
     millisAtStart := 2100;
     millisAtStart' := 2100 |}.

(** Samples that flicker between two neighbouring counts. *)
Definition flicker (i : nat) : Z := if Nat.even i then 2047 else 2048.

End Examples.
Import Examples.

(** ** What the properties speak of *)

Module Inv.

(** The value is a binary32 (binary64) number, an infinity or NaN. *)
Definition valid32 (x : float) : Prop := valid_binary fprec femax x = true.
Definition valid64 (x : double) : Prop := valid_binary dprec demax x = true.

(** [0 <= x <= BATTERY_FULL_CAPACITY], with the comparisons of the sketch. *)
Definition in_range (x : float) : Prop :=
  fle fzero x = true /\ fle x BATTERY_FULL_CAPACITY = true.

(** [0 <= x <= 100]. *)
Definition percent (x : float) : Prop :=
  fle fzero x = true /\ fle x (float_of_int 100) = true.

(** The charge is a number of the format between empty and full, and the
    zero point is not NaN. *)
Definition StateOK (s : State) : Prop :=
  valid32 (batteryJuiceLeft s) /\ in_range (batteryJuiceLeft s) /\
  noLoadVoltage s <> S754_nan.

(** What a pass of [loop] may emit without breaking the invariant. *)
Definition EffectOK (e : Effect) : Prop :=
  match e with
  | Report _ _ soc _ => percent soc
  | _ => True
  end.

(** The state a pass of [loop] ticks from: after the calibration, if the
    button is down. *)
Definition afterButton (sk : Sketch) (i : LoopInput) (s : State) : State :=
  if buttonLow i then fst (zeroOutCurrentSensor sk (calibrationSamples i) s) else s.

End Inv.
Import Inv.

(** ** What the further properties speak of *)

Module More.

(** The samples of a burst are counts of the 12-bit ADC
    ([analogReadResolution(12)]). *)
Definition adc12 (read : nat -> Z) : Prop := forall i, 0 <= read i <= 4095.

(** The bytes of the last save among the effects, if any. *)
Fixpoint lastSaved (out : list Effect) : option bytes4 :=
  match out with
  | [] => None
  | e :: rest =>
      match lastSaved rest with
      | Some b => Some b
      | None => match e with Saved b => Some b | _ => None end
      end
  end.

(** The three parts of a pass of [loop], one after the other. *)
Definition buttonPart (sk : Sketch) (i : LoopInput) (s : State) : State * list Effect :=
  if buttonLow i then zeroOutCurrentSensor sk (calibrationSamples i) s else (s, []).

Definition tickPart (sk : Sketch) (i : LoopInput) (s : State) : State * list Effect :=
  if elapsed (millisAtCheck i) (timeOfLastCheck s) 1000
  then tick sk (wrap_ulong (millisAtStamp i)) (sensors i) s
  else (s, []).

Definition savePart (sk : Sketch) (i : LoopInput) (s : State) : State * list Effect :=
  if usesEEPROM sk && elapsed (millisAtSaveCheck i) (timeOfLastSave s) 60000
  then save (wrap_ulong (millisAtSaveStamp i)) s
  else (s, []).

(** A voltage at an ADC pin: a number between 0 and the reference voltage. *)
Definition pinVoltsOK (v : float) : Prop :=
  valid32 v /\ fle fzero v = true /\ fle v ESP32_VOLTAGE = true.

(** Everything a pass of [loop] reads from the ADC is a 12-bit count. *)
Definition inputOK (i : LoopInput) : Prop :=
  adc12 (calibrationSamples i) /\ adc12 (currentSamples (sensors i)) /\
  0 <= rawVoltageReading (sensors i) <= 4095.

(** The reports among the effects keep the voltage between 0 and 18 V and
    the current between -18 and 18 A. *)
Definition displayOK (e : Effect) : Prop :=
  match e with
  | Report v a _ _ =>
      fle fzero v = true /\ fle v (float_of_int 18) = true /\
      fle (fabs a) (float_of_int 18) = true
  | _ => True
  end.

(** An example state with the battery half empty. *)
Definition halfState : State :=
  {| noLoadVoltage := adc_to_volts 2048;
     batteryJuiceLeft := float_of_int 6;
     timeOfLastCheck := 3000;
     timeOfLastSave := 3000;
     EEPROM := EEPROM_begin (255, 255, 255, 255) |}.

(** The example state with the battery empty, and with it full. *)
Definition emptyState : State :=
  {| noLoadVoltage := adc_to_volts 2048;
     batteryJuiceLeft := fzero;
     timeOfLastCheck := 3000;
     timeOfLastSave := 3000;
     EEPROM := EEPROM_begin (255, 255, 255, 255) |}.

(** Sensors whose current channel reads [count] throughout: at the zero
    point of the example states for 2048, below it (discharge) for less,
    above it (charge) for more. *)
Definition sensorsAt (count : Z) : Sensors :=
  {| rawVoltageReading := 2000;
     currentSamples := fun _ => count;
     tempC := float_of_int 21 |}.

End More.
Import More.

(** ** Notions for reasoning about rounding

    Values are compared as rationals through [Qval]; [rounded] describes
    what the rounding function of the IEEE-754 specification computes. *)

Module FloatDefs.

(** A shift register has lost nonzero bits. *)
Definition inexact (mrs : shr_record) : bool := shr_r mrs || shr_s mrs.

(** [shifted k x y]: [y] is [x] shifted right by [k] bits; when [y] records
    lost bits, either [x] already did or nonzero bits were shifted out. *)
Definition shifted (k : Z) (x y : shr_record) : Prop :=
  0 <= shr_m y /\ shr_m y = shr_m x / 2 ^ k /\
  (inexact y = true -> inexact x = true \/ shr_m y * 2 ^ k < shr_m x).

(** The rational [m * 2^e]. *)
Definition Qval (m e : Z) : Q := (inject_Z m * 2 ^ e)%Q.

(** [canon prec emax m e]: the exponent is the one the format gives to a
    mantissa of that size (also for [m = 0], where it is [emin]). *)
Definition canon (prec emax m e : Z) : Prop :=
  SpecFloat.fexp prec emax (Zdigits2 m + e) = e.

(** What [binary_round_aux] computes: a truncation to the format's exponent,
    a step of at most one unit in the last place (none when nothing was lost),
    and a final renormalisation. *)
Inductive rounded (prec emax : Z) (sx : bool) (m e : Z) (l : location)
          (r : spec_float) : Prop :=
| Rounded (m1 e1 mr m' e' : Z) :
    e1 = SpecFloat.fexp prec emax (Zdigits2 m + e) ->
    0 <= m1 -> m1 * 2 ^ (e1 - e) <= m ->
    (mr = m1 \/ (mr = m1 + 1 /\ (l <> loc_Exact \/ m1 * 2 ^ (e1 - e) < m))) ->
    0 <= m' -> e1 <= e' -> m' * 2 ^ (e' - e1) <= mr -> canon prec emax m' e' ->
    r = match m' with
        | Z0 => S754_zero sx
        | Zpos p => if e' <=? emax - prec then S754_finite sx p e'
                    else S754_infinity sx
        | Zneg _ => S754_nan
        end ->
    rounded prec emax sx m e l r.

(** [signed s x]: [x] is a zero, an infinity or a finite number of sign [s]. *)
Definition signed (s : bool) (x : spec_float) : Prop :=
  x = S754_zero s \/ x = S754_infinity s \/ exists p e, x = S754_finite s p e.

(** [fin_le B s x]: [x] is a zero or a finite number of sign [s] and of
    magnitude at most [B]. *)
Definition fin_le (B : Q) (s : bool) (x : spec_float) : Prop :=
  x = S754_zero s \/
  exists p e, x = S754_finite s p e /\ (Qval (Zpos p) e <= B)%Q.

(** [repr prec emax B]: the positive rational [B] is a number of the format. *)
Definition repr (prec emax : Z) (B : Q) : Prop :=
  exists mB eB,
    0 < mB /\ canon prec emax mB eB /\ eB <= emax - prec /\ (B == Qval mB eB)%Q.

(** [x] is a number of the format (or an infinity or NaN). *)
Definition valid (prec emax : Z) (x : spec_float) : Prop :=
  valid_binary prec emax x = true.

End FloatDefs.
Import FloatDefs.

(** ** Facts about the IEEE-754 specification

    Rounding always yields a well-formed float of the format, never NaN,
    and it never crosses a representable bound. *)

Module FloatFacts.

Lemma digits2_pos_bounds (p : positive) :
  2 ^ (Zpos (digits2_pos p) - 1) <= Zpos p < 2 ^ Zpos (digits2_pos p).
Proof.
  induction p as [p IH|p IH|]; cbn [digits2_pos].
  - rewrite Pos2Z.inj_succ.
    replace (Z.succ (Zpos (digits2_pos p)) - 1) with (Z.succ (Zpos (digits2_pos p) - 1)) by lia.
    rewrite !Z.pow_succ_r by lia. lia.
  - rewrite Pos2Z.inj_succ.
    replace (Z.succ (Zpos (digits2_pos p)) - 1) with (Z.succ (Zpos (digits2_pos p) - 1)) by lia.
    rewrite !Z.pow_succ_r by lia. lia.
  - cbn. lia.
Qed.

Lemma Zdigits2_nonneg (m : Z) : 0 <= Zdigits2 m.
Proof. destruct m; cbn; lia. Qed.

Lemma Zdigits2_bounds (m : Z) :
  0 < m -> 2 ^ (Zdigits2 m - 1) <= m < 2 ^ Zdigits2 m.
Proof.
  destruct m as [|p|p]; try lia. intros _. apply digits2_pos_bounds.
Qed.

Lemma Zdigits2_unique (m d : Z) :
  0 < m -> 2 ^ (d - 1) <= m < 2 ^ d -> Zdigits2 m = d.
Proof.
  intros Hm [Hlo Hhi].
  pose proof (Zdigits2_bounds m Hm) as [Hlo' Hhi'].
  pose proof (Zdigits2_nonneg m) as Hd.
  assert (0 < d).
  { destruct (Z_lt_le_dec 0 d) as [|Hle]; [assumption|].
    destruct (Z.eq_dec d 0) as [->|]; [cbn in Hhi; lia|].
    rewrite Z.pow_neg_r in Hhi by lia. lia. }
  assert (0 < Zdigits2 m).
  { destruct (Z.eq_dec (Zdigits2 m) 0) as [E|]; [|lia].
    rewrite E in Hhi'. cbn in Hhi'. lia. }
  destruct (Z_lt_le_dec (Zdigits2 m) d) as [Hlt|Hge].
  - assert (2 ^ Zdigits2 m <= 2 ^ (d - 1)) by (apply Z.pow_le_mono_r; lia). lia.
  - destruct (Z_lt_le_dec d (Zdigits2 m)) as [Hlt|Hle]; [|lia].
    assert (2 ^ d <= 2 ^ (Zdigits2 m - 1)) by (apply Z.pow_le_mono_r; lia). lia.
Qed.

Lemma Zdigits2_pos (m : Z) : 0 < m -> 0 < Zdigits2 m.
Proof. destruct m; cbn; lia. Qed.

Lemma Zdigits2_le (m1 m2 : Z) : 0 <= m1 <= m2 -> Zdigits2 m1 <= Zdigits2 m2.
Proof.
  intros [H1 H2].
  destruct (Z.eq_dec m1 0) as [->|Hne]; [apply Zdigits2_nonneg|].
  pose proof (Zdigits2_bounds m1 ltac:(lia)) as [Hlo1 _].
  pose proof (Zdigits2_bounds m2 ltac:(lia)) as [_ Hhi2].
  destruct (Z_lt_le_dec (Zdigits2 m2) (Zdigits2 m1)) as [Hlt|]; [|lia].
  pose proof (Zdigits2_nonneg m2).
  assert (2 ^ Zdigits2 m2 <= 2 ^ (Zdigits2 m1 - 1)) by (apply Z.pow_le_mono_r; lia).
  lia.
Qed.

Lemma Zdigits2_mul_pow2 (m n : Z) :
  0 < m -> 0 <= n -> Zdigits2 (m * 2 ^ n) = Zdigits2 m + n.
Proof.
  intros Hm Hn.
  pose proof (Zdigits2_bounds m Hm) as [Hlo Hhi].
  pose proof (Zdigits2_pos m Hm).
  assert (0 < 2 ^ n) by (apply Z.pow_pos_nonneg; lia).
  apply Zdigits2_unique; [nia|].
  replace (Zdigits2 m + n - 1) with ((Zdigits2 m - 1) + n) by lia.
  rewrite !Z.pow_add_r by lia. nia.
Qed.

Lemma Zdigits2_div_pow2 (m n : Z) :
  0 < m -> 0 <= n -> n < Zdigits2 m ->
  Zdigits2 (m / 2 ^ n) = Zdigits2 m - n /\ 0 < m / 2 ^ n.
Proof.
  intros Hm Hn Hlt.
  pose proof (Zdigits2_bounds m Hm) as [Hlo Hhi].
  assert (Hp : 0 < 2 ^ n) by (apply Z.pow_pos_nonneg; lia).
  assert (Hlo' : 2 ^ (Zdigits2 m - n - 1) <= m / 2 ^ n).
  { apply Z.div_le_lower_bound; [lia|].
    rewrite <- Z.pow_add_r by lia.
    replace (n + (Zdigits2 m - n - 1)) with (Zdigits2 m - 1) by lia. exact Hlo. }
  assert (Hhi' : m / 2 ^ n < 2 ^ (Zdigits2 m - n)).
  { apply Z.div_lt_upper_bound; [lia|].
    rewrite <- Z.pow_add_r by lia.
    replace (n + (Zdigits2 m - n)) with (Zdigits2 m) by lia. exact Hhi. }
  assert (0 < 2 ^ (Zdigits2 m - n - 1)) by (apply Z.pow_pos_nonneg; lia).
  split; [apply Zdigits2_unique|]; lia.
Qed.

Lemma Zdigits2_div_pow2_small (m n : Z) :
  0 <= m -> 0 <= n -> Zdigits2 m <= n -> m / 2 ^ n = 0.
Proof.
  intros Hm Hn Hle.
  destruct (Z.eq_dec m 0) as [->|Hne]; [apply Z.div_0_l; pose proof (Z.pow_pos_nonneg 2 n); lia|].
  pose proof (Zdigits2_bounds m ltac:(lia)) as [_ Hhi].
  pose proof (Zdigits2_nonneg m).
  assert (2 ^ Zdigits2 m <= 2 ^ n) by (apply Z.pow_le_mono_r; lia).
  apply Z.div_small. lia.
Qed.

(** *** Right shifts with sticky bits *)

Lemma shifted_shr_1 (x : shr_record) : 0 <= shr_m x -> shifted 1 x (shr_1 x).
Proof.
  destruct x as [m r s]. cbn [shr_m]. intros Hm. unfold shifted, inexact.
  destruct m as [|[p|p|]|p]; try lia; cbn [shr_1 shr_m shr_r shr_s];
    change (2 ^ 1) with 2.
  - rewrite Z.div_0_l by lia. repeat split; try lia.
    intros H. left. destruct r, s; auto.
  - rewrite Pos2Z.inj_xI.
    replace (2 * Zpos p + 1) with (1 + Zpos p * 2) by lia.
    rewrite Z.div_add by lia. change (1 / 2) with 0.
    split; [lia|]. split; [lia|]. intros _. right. lia.
  - rewrite Pos2Z.inj_xO. rewrite (Z.mul_comm 2), Z.div_mul by lia.
    repeat split; try lia. intros H. left. destruct r, s; auto.
  - change (1 / 2) with 0. split; [lia|]. split; [lia|]. intros _. right. lia.
Qed.

Lemma shifted_trans (a b : Z) (x y z : shr_record) :
  0 <= a -> 0 <= b -> 0 <= shr_m x ->
  shifted a x y -> shifted b y z -> shifted (a + b) x z.
Proof.
  intros Ha Hb Hx (Hy0 & Hy & Hyi) (Hz0 & Hz & Hzi).
  assert (Hpa : 0 < 2 ^ a) by (apply Z.pow_pos_nonneg; lia).
  assert (Hpb : 0 < 2 ^ b) by (apply Z.pow_pos_nonneg; lia).
  assert (Hya : shr_m y * 2 ^ a <= shr_m x).
  { rewrite Hy, Z.mul_comm. apply Z.mul_div_le; lia. }
  assert (Hzb : shr_m z * 2 ^ b <= shr_m y).
  { rewrite Hz, Z.mul_comm. apply Z.mul_div_le; lia. }
  unfold shifted. rewrite Z.pow_add_r by lia.
  split; [exact Hz0|]. split.
  - rewrite Hz, Hy. apply Z.div_div; lia.
  - intros Hi. destruct (Hzi Hi) as [Hyi'|Hlt].
    + destruct (Hyi Hyi') as [Hxi|Hlt]; [left; exact Hxi|right; nia].
    + right. nia.
Qed.

Lemma shifted_iter (p : positive) :
  forall x, 0 <= shr_m x -> shifted (Zpos p) x (iter_pos shr_1 p x).
Proof.
  induction p as [p IH|p IH|]; intros x Hx; cbn [iter_pos].
  - pose proof (shifted_shr_1 x Hx) as H1.
    assert (H1m : 0 <= shr_m (shr_1 x)) by apply H1.
    pose proof (IH _ H1m) as H2.
    assert (H2m : 0 <= shr_m (iter_pos shr_1 p (shr_1 x))) by apply H2.
    pose proof (IH _ H2m) as H3.
    replace (Zpos p~1) with (1 + (Zpos p + Zpos p)) by lia.
    eapply shifted_trans; try lia; [exact H1|].
    eapply shifted_trans; try lia; eassumption.
  - pose proof (IH _ Hx) as H2.
    assert (H2m : 0 <= shr_m (iter_pos shr_1 p x)) by apply H2.
    pose proof (IH _ H2m) as H3.
    replace (Zpos p~0) with (Zpos p + Zpos p) by lia.
    eapply shifted_trans; try lia; eassumption.
  - apply shifted_shr_1; exact Hx.
Qed.

Lemma shifted_0 (x : shr_record) : 0 <= shr_m x -> shifted 0 x x.
Proof.
  intros Hx. unfold shifted. change (2 ^ 0) with 1. rewrite Z.div_1_r.
  repeat split; auto.
Qed.

Lemma shr_shifted (x : shr_record) (e n : Z) :
  0 <= shr_m x ->
  shifted (Z.max n 0) x (fst (shr x e n)) /\ snd (shr x e n) = e + Z.max n 0.
Proof.
  intros Hx. destruct n as [|p|p]; cbn [shr fst snd].
  - split; [apply shifted_0; exact Hx|lia].
  - replace (Z.max (Zpos p) 0) with (Zpos p) by lia.
    split; [apply shifted_iter; exact Hx|reflexivity].
  - replace (Z.max (Zneg p) 0) with 0 by lia.
    split; [apply shifted_0; exact Hx|lia].
Qed.

Lemma shr_record_of_loc_m (m : Z) (l : location) :
  shr_m (shr_record_of_loc m l) = m.
Proof. destruct l as [|[]]; reflexivity. Qed.

Lemma shr_record_of_loc_inexact (m : Z) (l : location) :
  inexact (shr_record_of_loc m l) = true -> l <> loc_Exact.
Proof. destruct l as [|[]]; cbn; congruence. Qed.

Lemma loc_of_shr_record_exact (mrs : shr_record) :
  inexact mrs = false -> loc_of_shr_record mrs = loc_Exact.
Proof. destruct mrs as [m [] []]; cbn; congruence. Qed.

Lemma round_nearest_even_cases (m : Z) (mrs : shr_record) :
  round_nearest_even m (loc_of_shr_record mrs) = m \/
  (round_nearest_even m (loc_of_shr_record mrs) = m + 1 /\ inexact mrs = true).
Proof.
  destruct mrs as [m0 [] []]; cbn; auto.
  destruct (Z.even m); auto.
Qed.

(** *** Rational values *)

Local Open Scope Q_scope.

Lemma Qpow2_pos (e : Z) : 0 < 2 ^ e.
Proof. apply Qpower_0_lt. reflexivity. Qed.

Lemma Qpow2_inject (n : Z) : (0 <= n)%Z -> inject_Z (2 ^ n) == 2 ^ n.
Proof. intros Hn. rewrite Zpower_Qpower by exact Hn. reflexivity. Qed.

Lemma Qval_scale (m e n : Z) :
  (0 <= n)%Z -> Qval (m * 2 ^ n) e == Qval m (e + n).
Proof.
  intros Hn. unfold Qval.
  rewrite inject_Z_mult, Qpow2_inject by exact Hn.
  rewrite Qpower_plus by discriminate. ring.
Qed.

Lemma Qval_le (m1 m2 e : Z) : (m1 <= m2)%Z -> Qval m1 e <= Qval m2 e.
Proof.
  intros H. unfold Qval. apply Qmult_le_compat_r.
  - rewrite <- Zle_Qle. exact H.
  - apply Qlt_le_weak, Qpow2_pos.
Qed.

Lemma Qval_lt (m1 m2 e : Z) : (m1 < m2)%Z -> Qval m1 e < Qval m2 e.
Proof.
  intros H. unfold Qval. apply Qmult_lt_compat_r.
  - apply Qpow2_pos.
  - rewrite <- Zlt_Qlt. exact H.
Qed.

Lemma Qval_le_inv (m1 m2 e : Z) : Qval m1 e <= Qval m2 e -> (m1 <= m2)%Z.
Proof.
  intros H. destruct (Z_lt_le_dec m2 m1) as [Hlt|]; [|assumption].
  apply (Qval_lt _ _ e) in Hlt. apply Qlt_not_le in Hlt. contradiction.
Qed.

Lemma Qval_lt_inv (m1 m2 e : Z) : Qval m1 e < Qval m2 e -> (m1 < m2)%Z.
Proof.
  intros H. destruct (Z_lt_le_dec m1 m2) as [|Hle]; [assumption|].
  apply (Qval_le _ _ e) in Hle. apply Qle_not_lt in Hle. contradiction.
Qed.

Lemma Qval_nonneg (m e : Z) : (0 <= m)%Z -> 0 <= Qval m e.
Proof.
  intros H. unfold Qval. apply Qmult_le_0_compat.
  - change 0 with (inject_Z 0). rewrite <- Zle_Qle. exact H.
  - apply Qlt_le_weak, Qpow2_pos.
Qed.

Lemma Qval_pos (m e : Z) : (0 < m)%Z -> 0 < Qval m e.
Proof.
  intros H. unfold Qval. apply Qmult_lt_0_compat.
  - change 0 with (inject_Z 0). rewrite <- Zlt_Qlt. exact H.
  - apply Qpow2_pos.
Qed.

Lemma Qval_digits (m e : Z) :
  (0 < m)%Z -> 2 ^ (Zdigits2 m - 1 + e) <= Qval m e /\ Qval m e < 2 ^ (Zdigits2 m + e).
Proof.
  intros Hm. pose proof (Zdigits2_bounds m Hm) as [Hlo Hhi].
  pose proof (Zdigits2_pos m Hm) as Hd.
  rewrite !Qpower_plus by discriminate.
  rewrite <- (Qpow2_inject (Zdigits2 m - 1)) by lia.
  rewrite <- (Qpow2_inject (Zdigits2 m)) by lia. split.
  - apply (Qval_le _ _ e). exact Hlo.
  - apply (Qval_lt _ _ e). exact Hhi.
Qed.

(** The magnitude [digits + exponent] is monotone in the value. *)
Lemma Qval_le_magnitude (m1 e1 m2 e2 : Z) :
  (0 < m1)%Z -> (0 < m2)%Z -> Qval m1 e1 <= Qval m2 e2 ->
  (Zdigits2 m1 + e1 <= Zdigits2 m2 + e2)%Z.
Proof.
  intros H1 H2 Hle.
  pose proof (Qval_digits m1 e1 H1) as [Hlo _].
  pose proof (Qval_digits m2 e2 H2) as [_ Hhi].
  assert (Hlt : 2 ^ (Zdigits2 m1 - 1 + e1) < 2 ^ (Zdigits2 m2 + e2)).
  { eapply Qle_lt_trans; [exact Hlo|]. eapply Qle_lt_trans; eassumption. }
  apply Qpower_lt_compat_l_inv in Hlt; [lia|reflexivity].
Qed.

Local Close Scope Q_scope.

(** *** Rounding in a format *)

Section Format.

Variables prec emax : Z.
Hypothesis Hprec : 0 < prec.
Hypothesis Hemax : prec < emax.

Local Abbreviation fexp := (SpecFloat.fexp prec emax).
Local Abbreviation emin := (SpecFloat.emin prec emax).
Local Abbreviation canon := (FloatDefs.canon prec emax).
Local Abbreviation rounded := (FloatDefs.rounded prec emax).
Local Abbreviation Rounded := (FloatDefs.Rounded prec emax).
Local Abbreviation repr := (FloatDefs.repr prec emax).
Local Abbreviation valid := (FloatDefs.valid prec emax).

Lemma fexp_le (x y : Z) : x <= y -> fexp x <= fexp y.
Proof. unfold SpecFloat.fexp. lia. Qed.

Lemma emin_le_fexp (x : Z) : emin <= fexp x.
Proof. unfold SpecFloat.fexp. lia. Qed.

Lemma canon_valid (s : bool) (p : positive) (e : Z) :
  canon (Zpos p) e -> e <= emax - prec ->
  valid_binary prec emax (S754_finite s p e) = true.
Proof.
  unfold canon. cbn [Zdigits2 valid_binary]. intros Hc He.
  unfold bounded, canonical_mantissa. rewrite Hc, Z.eqb_refl. cbn.
  apply Z.leb_le. exact He.
Qed.

Lemma valid_canon (s : bool) (p : positive) (e : Z) :
  valid_binary prec emax (S754_finite s p e) = true ->
  canon (Zpos p) e /\ e <= emax - prec.
Proof.
  cbn [valid_binary]. unfold bounded, canonical_mantissa, canon.
  intros H. apply andb_prop in H as [H1 H2].
  apply Z.eqb_eq in H1. apply Z.leb_le in H2. cbn [Zdigits2]. auto.
Qed.

Lemma shr_fexp_spec (m e : Z) (l : location) :
  0 <= m -> e <= fexp (Zdigits2 m + e) ->
  forall mrs e', shr_fexp prec emax m e l = (mrs, e') ->
  e' = fexp (Zdigits2 m + e) /\ 0 <= shr_m mrs /\
  shr_m mrs * 2 ^ (e' - e) <= m /\ canon (shr_m mrs) e' /\
  (inexact mrs = true -> l <> loc_Exact \/ shr_m mrs * 2 ^ (e' - e) < m).
Proof.
  intros Hm He mrs e' Heq. unfold shr_fexp in Heq.
  set (n := fexp (Zdigits2 m + e) - e) in *.
  assert (Hx : 0 <= shr_m (shr_record_of_loc m l))
    by (rewrite shr_record_of_loc_m; exact Hm).
  destruct (shr_shifted (shr_record_of_loc m l) e n Hx) as [Hs He'].
  rewrite Heq in Hs, He'. cbn [fst snd] in Hs, He'.
  replace (Z.max n 0) with n in * by lia.
  destruct Hs as (H0 & Hdiv & Hin). rewrite shr_record_of_loc_m in Hdiv, Hin.
  assert (Hn : e' - e = n) by lia. rewrite Hn.
  assert (Hp : 0 < 2 ^ n) by (apply Z.pow_pos_nonneg; lia).
  split; [lia|]. split; [exact H0|]. split.
  { rewrite Hdiv, Z.mul_comm. apply Z.mul_div_le. lia. }
  split.
  - unfold canon. rewrite Hdiv.
    destruct (Z_lt_le_dec n (Zdigits2 m)) as [Hlt|Hge].
    + assert (0 < m) by (destruct m; cbn in Hlt; lia).
      destruct (Zdigits2_div_pow2 m n) as [Hd _]; try lia.
      rewrite Hd. replace (Zdigits2 m - n + e') with (Zdigits2 m + e) by lia. lia.
    + rewrite Zdigits2_div_pow2_small by lia. cbn [Zdigits2].
      subst n. unfold SpecFloat.fexp in *. lia.
  - intros Hi. destruct (Hin Hi) as [Hl|Hlt]; [left|right; exact Hlt].
    eapply shr_record_of_loc_inexact; exact Hl.
Qed.

Lemma binary_round_aux_rounded (sx : bool) (m e : Z) (l : location) :
  0 <= m -> e <= fexp (Zdigits2 m + e) ->
  rounded sx m e l (binary_round_aux prec emax sx m e l).
Proof.
  intros Hm He. unfold binary_round_aux.
  destruct (shr_fexp prec emax m e l) as [mrs1 e1] eqn:E1.
  destruct (shr_fexp_spec m e l Hm He _ _ E1) as (He1 & Hm1 & Hle1 & Hc1 & Hin1).
  set (mr := round_nearest_even (shr_m mrs1) (loc_of_shr_record mrs1)).
  assert (Hmr : mr = shr_m mrs1 \/ (mr = shr_m mrs1 + 1 /\ inexact mrs1 = true))
    by apply round_nearest_even_cases.
  assert (Hmr0 : 0 <= mr) by lia.
  assert (Hmr_ge : shr_m mrs1 <= mr) by lia.
  assert (Hed : e1 <= fexp (Zdigits2 mr + e1)).
  { unfold canon in Hc1. rewrite <- Hc1 at 1. apply fexp_le.
    pose proof (Zdigits2_le (shr_m mrs1) mr). lia. }
  destruct (shr_fexp prec emax mr e1 loc_Exact) as [mrs2 e2] eqn:E2.
  destruct (shr_fexp_spec mr e1 loc_Exact Hmr0 Hed _ _ E2) as (He2 & Hm2 & Hle2 & Hc2 & _).
  apply (Rounded sx m e l _ (shr_m mrs1) e1 mr (shr_m mrs2) e2); auto; try lia.
  destruct Hmr as [->|[-> Hi]]; [left; reflexivity|right].
  split; [reflexivity|]. apply Hin1. exact Hi.
Qed.

Lemma rounded_cases (sx : bool) (m e : Z) (l : location) (r : spec_float) :
  rounded sx m e l r ->
  valid_binary prec emax r = true /\
  (r = S754_zero sx \/ r = S754_infinity sx \/ exists p e', r = S754_finite sx p e').
Proof.
  intros [m1 e1 mr m' e' _ _ _ _ Hm' _ _ Hc ->].
  destruct m' as [|p|p]; [cbn; auto| |lia].
  destruct (Z.leb_spec e' (emax - prec)) as [Hle|Hgt].
  - split; [apply canon_valid; assumption|]. right. right. eauto.
  - cbn. auto.
Qed.

Local Open Scope Q_scope.

(** Rounding does not cross a representable bound. *)
Lemma rounded_bounded (sx : bool) (m e : Z) (l : location) (r : spec_float)
      (mB eB : Z) :
  rounded sx m e l r ->
  (0 <= m)%Z -> (e <= fexp (Zdigits2 m + e))%Z ->
  (0 < mB)%Z -> canon mB eB -> (eB <= emax - prec)%Z ->
  Qval m e <= Qval mB eB ->
  (l <> loc_Exact -> Qval m e < Qval mB eB) ->
  r = S754_zero sx \/
  exists p e', r = S754_finite sx p e' /\ Qval (Zpos p) e' <= Qval mB eB.
Proof.
  intros [m1 e1 mr m' e' He1 Hm1 Hle1 Hmr Hm' Hee Hle' Hc ->]
         Hm He HmB HcB HeB Hle Hlt.
  assert (Hv1 : Qval m1 e1 <= Qval m e).
  { replace e1 with (e + (e1 - e))%Z by lia.
    rewrite <- Qval_scale by lia. apply Qval_le. exact Hle1. }
  assert (HvR : Qval mr e1 <= Qval mB eB).
  { destruct Hmr as [->|[-> Hcause]].
    - eapply Qle_trans; eassumption.
    - assert (Hs : Qval m1 e1 < Qval mB eB).
      { destruct Hcause as [Hl|Hl].
        - eapply Qle_lt_trans; [exact Hv1|]. apply Hlt. exact Hl.
        - eapply Qlt_le_trans; [|exact Hle].
          replace e1 with (e + (e1 - e))%Z by lia.
          rewrite <- Qval_scale by lia. apply Qval_lt. exact Hl. }
      assert (HeB1 : (e1 <= eB)%Z).
      { destruct (Z.eq_dec m 0) as [->|Hne].
        - cbn [Zdigits2] in He1, He. unfold canon in HcB.
          pose proof (emin_le_fexp (Zdigits2 mB + eB)).
          unfold SpecFloat.fexp in He1, He. lia.
        - pose proof (Qval_le_magnitude m e mB eB ltac:(lia) HmB Hle) as Hmag.
          unfold canon in HcB. rewrite <- HcB, He1. apply fexp_le. exact Hmag. }
      replace eB with (e1 + (eB - e1))%Z in Hs |- * by lia.
      rewrite <- Qval_scale in Hs |- * by lia.
      apply Qval_lt_inv in Hs. apply Qval_le. lia. }
  assert (Hv' : Qval m' e' <= Qval mr e1).
  { replace e' with (e1 + (e' - e1))%Z by lia.
    rewrite <- Qval_scale by lia. apply Qval_le. exact Hle'. }
  destruct m' as [|p|p]; [left; reflexivity| |lia]. right.
  assert (Hvp : Qval (Zpos p) e' <= Qval mB eB) by (eapply Qle_trans; eassumption).
  pose proof (Qval_le_magnitude (Zpos p) e' mB eB ltac:(lia) HmB Hvp) as Hmag.
  assert (e' <= eB)%Z.
  { unfold canon in Hc, HcB. rewrite <- Hc, <- HcB. apply fexp_le. exact Hmag. }
  destruct (Z.leb_spec e' (emax - prec)); [|lia].
  exists p, e'. auto.
Qed.

Local Close Scope Q_scope.

(** *** Operations *)

Lemma fin_le_signed (B : Q) (s : bool) (x : spec_float) :
  fin_le B s x -> signed s x.
Proof. intros [->|(p & e & -> & _)]; unfold signed; eauto. Qed.

Lemma fin_le_weaken (B B' : Q) (s : bool) (x : spec_float) :
  (B <= B')%Q -> fin_le B s x -> fin_le B' s x.
Proof.
  intros HB [->|(p & e & -> & H)]; [left; reflexivity|right].
  exists p, e. split; [reflexivity|]. eapply Qle_trans; eassumption.
Qed.

Lemma rounded_fin_le (sx : bool) (m e : Z) (l : location) (r : spec_float) (B : Q) :
  rounded sx m e l r ->
  0 <= m -> e <= fexp (Zdigits2 m + e) -> repr B ->
  (Qval m e <= B)%Q -> (l <> loc_Exact -> (Qval m e < B)%Q) ->
  fin_le B sx r.
Proof.
  intros Hr Hm He (mB & eB & HmB & HcB & HeB & HB) Hle Hlt.
  destruct (rounded_bounded sx m e l r mB eB Hr Hm He HmB HcB HeB)
    as [->|(p & e' & -> & Hv)].
  - rewrite <- HB. exact Hle.
  - intros Hl. rewrite <- HB. apply Hlt. exact Hl.
  - left. reflexivity.
  - right. exists p, e'. split; [reflexivity|]. rewrite HB. exact Hv.
Qed.

Lemma iter_xO (d mx : positive) :
  Zpos (Pos.iter xO mx d) = Zpos mx * 2 ^ Zpos d.
Proof.
  induction d as [|d IH] using Pos.peano_ind.
  - cbn [Pos.iter]. rewrite Pos2Z.inj_xO. change (2 ^ 1) with 2. lia.
  - rewrite Pos.iter_succ, Pos2Z.inj_xO, IH, Pos2Z.inj_succ.
    rewrite Z.pow_succ_r by lia. lia.
Qed.

Lemma shl_align_spec (mx : positive) (ex ex' : Z) :
  let k := Z.max (ex - ex') 0 in
  Zpos (fst (shl_align mx ex ex')) = Zpos mx * 2 ^ k /\
  snd (shl_align mx ex ex') = ex - k.
Proof.
  unfold shl_align. destruct (ex' - ex) as [|d|d] eqn:E; cbn [fst snd].
  - replace (Z.max (ex - ex') 0) with 0 by lia. cbn. lia.
  - replace (Z.max (ex - ex') 0) with 0 by lia. cbn. lia.
  - replace (Z.max (ex - ex') 0) with (Zpos d) by lia.
    rewrite iter_xO. lia.
Qed.

Lemma binary_round_rounded (sx : bool) (mx : positive) (ex : Z) :
  exists mz ez,
    rounded sx (Zpos mz) ez loc_Exact (binary_round prec emax sx mx ex) /\
    ez <= fexp (Zdigits2 (Zpos mz) + ez) /\
    (Qval (Zpos mz) ez == Qval (Zpos mx) ex)%Q.
Proof.
  unfold binary_round.
  pose proof (shl_align_spec mx ex (fexp (Zpos (digits2_pos mx) + ex))) as Hs.
  destruct (shl_align mx ex (fexp (Zpos (digits2_pos mx) + ex))) as [mz ez].
  cbn [fst snd] in Hs. cbv zeta in Hs. destruct Hs as [Hmz Hez].
  set (k := Z.max (ex - fexp (Zpos (digits2_pos mx) + ex)) 0) in *.
  assert (Hk : 0 <= k) by lia.
  assert (Hd : Zdigits2 (Zpos mz) + ez = Zpos (digits2_pos mx) + ex).
  { rewrite Hmz, Zdigits2_mul_pow2 by lia. cbn [Zdigits2]. lia. }
  assert (He : ez <= fexp (Zdigits2 (Zpos mz) + ez)) by (rewrite Hd; lia).
  exists mz, ez. split; [|split].
  - apply binary_round_aux_rounded; [lia|exact He].
  - exact He.
  - rewrite Hmz, Qval_scale by lia. replace (ez + k) with ex by lia. reflexivity.
Qed.

Lemma binary_round_valid (sx : bool) (mx : positive) (ex : Z) :
  valid (binary_round prec emax sx mx ex) /\
  signed sx (binary_round prec emax sx mx ex).
Proof.
  destruct (binary_round_rounded sx mx ex) as (mz & ez & Hr & _ & _).
  apply rounded_cases in Hr. exact Hr.
Qed.

Lemma binary_round_fin_le (sx : bool) (mx : positive) (ex : Z) (B : Q) :
  repr B -> (Qval (Zpos mx) ex <= B)%Q ->
  fin_le B sx (binary_round prec emax sx mx ex).
Proof.
  intros HB Hle.
  destruct (binary_round_rounded sx mx ex) as (mz & ez & Hr & He & Hv).
  eapply rounded_fin_le; try eassumption; try lia.
  - rewrite Hv. exact Hle.
  - intros H. exfalso. apply H. reflexivity.
Qed.

(** Conversion to the format. *)
Lemma convert_valid (x : spec_float) : valid (convert prec emax x).
Proof.
  destruct x as [s|s| |s m e]; try reflexivity.
  apply binary_round_valid.
Qed.

Lemma convert_fin_le (B : Q) (s : bool) (x : spec_float) :
  repr B -> fin_le B s x -> fin_le B s (convert prec emax x).
Proof.
  intros HB [->|(p & e & -> & H)]; [left; reflexivity|].
  cbn [convert]. apply binary_round_fin_le; assumption.
Qed.

Lemma convert_nan (x : spec_float) :
  convert prec emax x = S754_nan -> x = S754_nan.
Proof.
  destruct x as [s|s| |s m e]; cbn [convert]; try congruence.
  intros H. destruct (binary_round_valid s m e) as [_ [E|[E|(p & e' & E)]]];
    rewrite E in H; discriminate.
Qed.

(** Conversion of an integer. *)
Lemma binary_normalize_valid (z e : Z) :
  valid (binary_normalize prec emax z e false) /\
  signed (z <? 0) (binary_normalize prec emax z e false).
Proof.
  destruct z as [|p|p]; cbn [binary_normalize].
  - split; [reflexivity|]. left. reflexivity.
  - apply binary_round_valid.
  - apply binary_round_valid.
Qed.

Lemma binary_normalize_fin_le (z e : Z) (B : Q) :
  repr B -> (Qval (Z.abs z) e <= B)%Q ->
  fin_le B (z <? 0) (binary_normalize prec emax z e false).
Proof.
  intros HB Hle. destruct z as [|p|p]; cbn [binary_normalize].
  - left. reflexivity.
  - apply binary_round_fin_le; assumption.
  - apply binary_round_fin_le; assumption.
Qed.

(** Multiplication. *)
Lemma Zdigits2_pow2 (k : Z) : 0 <= k -> Zdigits2 (2 ^ k) = k + 1.
Proof.
  intros Hk. replace (2 ^ k) with (1 * 2 ^ k) by lia.
  rewrite Zdigits2_mul_pow2 by lia. change (Zdigits2 1) with 1. lia.
Qed.

Lemma Zdigits2_mul_ge (a b : Z) :
  0 < a -> 0 < b -> Zdigits2 a + Zdigits2 b - 1 <= Zdigits2 (a * b).
Proof.
  intros Ha Hb.
  pose proof (Zdigits2_bounds a Ha) as [Hla _].
  pose proof (Zdigits2_bounds b Hb) as [Hlb _].
  pose proof (Zdigits2_pos a Ha). pose proof (Zdigits2_pos b Hb).
  assert (Hp : 2 ^ (Zdigits2 a - 1 + (Zdigits2 b - 1)) <= a * b).
  { rewrite Z.pow_add_r by lia.
    assert (0 < 2 ^ (Zdigits2 a - 1)) by (apply Z.pow_pos_nonneg; lia).
    assert (0 < 2 ^ (Zdigits2 b - 1)) by (apply Z.pow_pos_nonneg; lia).
    nia. }
  assert (0 < 2 ^ (Zdigits2 a - 1 + (Zdigits2 b - 1))) by (apply Z.pow_pos_nonneg; lia).
  pose proof (Zdigits2_le (2 ^ (Zdigits2 a - 1 + (Zdigits2 b - 1))) (a * b) ltac:(lia)) as Hle.
  rewrite Zdigits2_pow2 in Hle by lia. lia.
Qed.

Lemma SFmul_rounded (sx sy : bool) (mx my : positive) (ex ey : Z) :
  valid (S754_finite sx mx ex) -> valid (S754_finite sy my ey) ->
  rounded (xorb sx sy) (Zpos (mx * my)) (ex + ey) loc_Exact
          (SFmul prec emax (S754_finite sx mx ex) (S754_finite sy my ey)) /\
  ex + ey <= fexp (Zdigits2 (Zpos (mx * my)) + (ex + ey)).
Proof.
  intros Hx Hy. apply valid_canon in Hx as [Hcx _]. apply valid_canon in Hy as [Hcy _].
  assert (He : ex + ey <= fexp (Zdigits2 (Zpos (mx * my)) + (ex + ey))).
  { pose proof (Zdigits2_mul_ge (Zpos mx) (Zpos my) ltac:(lia) ltac:(lia)) as Hd.
    rewrite <- Pos2Z.inj_mul in Hd.
    pose proof (Zdigits2_pos (Zpos mx) ltac:(lia)).
    pose proof (Zdigits2_pos (Zpos my) ltac:(lia)).
    unfold canon, SpecFloat.fexp, SpecFloat.emin in *. lia. }
  split; [|exact He]. cbn [SFmul].
  apply binary_round_aux_rounded; [lia|exact He].
Qed.

Lemma SFmul_valid (x y : spec_float) :
  valid x -> valid y -> valid (SFmul prec emax x y).
Proof.
  intros Hx Hy.
  destruct x as [sx|sx| |sx mx ex], y as [sy|sy| |sy my ey]; try reflexivity.
  destruct (SFmul_rounded sx sy mx my ex ey Hx Hy) as [Hr _].
  apply rounded_cases in Hr. apply Hr.
Qed.

Lemma SFmul_finite_not_nan (x : spec_float) (sy : bool) (my : positive) (ey : Z) :
  valid x -> valid (S754_finite sy my ey) -> x <> S754_nan ->
  SFmul prec emax x (S754_finite sy my ey) <> S754_nan.
Proof.
  intros Hx Hy Hn. destruct x as [sx|sx| |sx mx ex]; cbn [SFmul]; try congruence.
  destruct (SFmul_rounded sx sy mx my ex ey Hx Hy) as [Hr _].
  apply rounded_cases in Hr as [_ [E|[E|(p & e' & E)]]];
    cbn [SFmul] in E; rewrite E; discriminate.
Qed.

Lemma SFmul_fin_le (Bx By B : Q) (sx sy : bool) (x y : spec_float) :
  valid x -> valid y -> fin_le Bx sx x -> fin_le By sy y ->
  (0 <= Bx)%Q -> (Bx * By <= B)%Q -> repr B ->
  fin_le B (xorb sx sy) (SFmul prec emax x y).
Proof.
  intros Hvx Hvy [->|(mx & ex & -> & Hx)] [->|(my & ey & -> & Hy)] HBx HB Hrep;
    try (left; reflexivity).
  destruct (SFmul_rounded sx sy mx my ex ey Hvx Hvy) as [Hr He].
  eapply rounded_fin_le; try eassumption; try lia.
  - assert (E : (Qval (Zpos (mx * my)) (ex + ey) == Qval (Zpos mx) ex * Qval (Zpos my) ey)%Q).
    { unfold Qval. rewrite Pos2Z.inj_mul, inject_Z_mult, Qpower_plus by discriminate. ring. }
    rewrite E. eapply Qle_trans; [|exact HB].
    pose proof (Qval_nonneg (Zpos my) ey ltac:(lia)).
    pose proof (Qval_nonneg (Zpos mx) ex ltac:(lia)).
    eapply Qle_trans; [apply Qmult_le_compat_r; eassumption|].
    rewrite (Qmult_comm Bx), (Qmult_comm Bx). apply Qmult_le_compat_r; assumption.
  - intros H. exfalso. apply H. reflexivity.
Qed.

(** Division. *)
Lemma new_location_exact (n r : Z) :
  new_location n r <> loc_Exact -> r <> 0.
Proof.
  unfold new_location, new_location_even, new_location_odd.
  intros H ->. destruct (Z.even n); cbn in H; apply H; reflexivity.
Qed.

Lemma SFdiv_core_spec (mx my : positive) (ex ey : Z) :
  forall q e' l,
  SFdiv_core_binary prec emax (Zpos mx) ex (Zpos my) ey = (q, e', l) ->
  0 <= q /\ e' <= fexp (Zdigits2 q + e') /\
  (Qval q e' * Qval (Zpos my) ey <= Qval (Zpos mx) ex)%Q /\
  (l <> loc_Exact -> (Qval q e' * Qval (Zpos my) ey < Qval (Zpos mx) ex)%Q).
Proof.
  intros q e' l. unfold SFdiv_core_binary.
  set (d1 := Zdigits2 (Zpos mx)). set (d2 := Zdigits2 (Zpos my)).
  set (e0 := Z.min (fexp (d1 + ex - (d2 + ey))) (ex - ey)).
  set (s := ex - ey - e0).
  assert (Hs : 0 <= s) by (unfold s, e0; lia).
  set (m' := match s with Zpos _ => Z.shiftl (Zpos mx) s | Z0 => Zpos mx | Zneg _ => 0 end).
  assert (Hm' : m' = Zpos mx * 2 ^ s).
  { unfold m'. destruct s as [|p|p]; [cbn; lia| |lia].
    apply Z.shiftl_mul_pow2. lia. }
  clearbody m'.
  destruct (Z.div_eucl m' (Zpos my)) as [q0 r] eqn:E.
  intros H. injection H as <- <- <-.
  pose proof (Z_div_mod m' (Zpos my) ltac:(lia)) as Hdm. rewrite E in Hdm.
  destruct Hdm as [Hdm Hr].
  assert (Hp : 0 < 2 ^ s) by (apply Z.pow_pos_nonneg; lia).
  assert (Hq0 : 0 <= q0) by nia.
  assert (Hd1 : 0 < d1) by (apply Zdigits2_pos; lia).
  assert (Hd2 : 0 < d2) by (apply Zdigits2_pos; lia).
  assert (Hdq : d1 + s - d2 <= Zdigits2 q0).
  { destruct (Z_lt_le_dec (d1 + s - d2) 1) as [|Hge];
      [pose proof (Zdigits2_nonneg q0); lia|].
    pose proof (Zdigits2_bounds (Zpos mx) ltac:(lia)) as [Hlx _].
    pose proof (Zdigits2_bounds (Zpos my) ltac:(lia)) as [_ Hhy].
    fold d1 in Hlx. fold d2 in Hhy.
    assert (Hlow : 2 ^ (d1 + s - d2 - 1) <= q0).
    { assert (Hpow : 2 ^ (d1 + s - d2 - 1) * 2 ^ d2 = 2 ^ (d1 - 1) * 2 ^ s).
      { rewrite <- !Z.pow_add_r by lia. f_equal. lia. }
      assert (0 < 2 ^ (d1 + s - d2 - 1)) by (apply Z.pow_pos_nonneg; lia).
      assert (0 < 2 ^ (d1 - 1)) by (apply Z.pow_pos_nonneg; lia).
      nia. }
    assert (0 < 2 ^ (d1 + s - d2 - 1)) by (apply Z.pow_pos_nonneg; lia).
    pose proof (Zdigits2_le (2 ^ (d1 + s - d2 - 1)) q0 ltac:(lia)) as Hle.
    rewrite Zdigits2_pow2 in Hle by lia. lia. }
  assert (Hmul : (Qval q0 e0 * Qval (Zpos my) ey == Qval (q0 * Zpos my) (e0 + ey))%Q).
  { unfold Qval. rewrite inject_Z_mult, Qpower_plus by discriminate. ring. }
  assert (Hx : (Qval (Zpos mx) ex == Qval m' (e0 + ey))%Q).
  { rewrite Hm', Qval_scale by lia. replace (e0 + ey + s) with ex by (unfold s; lia).
    reflexivity. }
  split; [exact Hq0|]. split; [|split].
  - apply Z.le_trans with (fexp (d1 + ex - (d2 + ey))); [unfold e0; lia|].
    apply fexp_le. unfold s in Hdq. lia.
  - rewrite Hmul, Hx. apply Qval_le. lia.
  - intros Hl. apply new_location_exact in Hl.
    rewrite Hmul, Hx. apply Qval_lt. lia.
Qed.

Lemma SFdiv_rounded (sx sy : bool) (mx my : positive) (ex ey : Z) :
  exists q e' l,
    rounded (xorb sx sy) q e' l
            (SFdiv prec emax (S754_finite sx mx ex) (S754_finite sy my ey)) /\
    0 <= q /\ e' <= fexp (Zdigits2 q + e') /\
    (Qval q e' * Qval (Zpos my) ey <= Qval (Zpos mx) ex)%Q /\
    (l <> loc_Exact -> (Qval q e' * Qval (Zpos my) ey < Qval (Zpos mx) ex)%Q).
Proof.
  cbn [SFdiv].
  destruct (SFdiv_core_binary prec emax (Zpos mx) ex (Zpos my) ey) as [[q e'] l] eqn:E.
  destruct (SFdiv_core_spec mx my ex ey q e' l E) as (Hq & He & Hle & Hlt).
  exists q, e', l. split; [|auto].
  apply binary_round_aux_rounded; assumption.
Qed.

Lemma SFdiv_valid (x y : spec_float) : valid (SFdiv prec emax x y).
Proof.
  destruct x as [sx|sx| |sx mx ex], y as [sy|sy| |sy my ey]; try reflexivity.
  destruct (SFdiv_rounded sx sy mx my ex ey) as (q & e' & l & Hr & _).
  apply rounded_cases in Hr. apply Hr.
Qed.

Lemma SFdiv_finite_not_nan (x : spec_float) (sy : bool) (my : positive) (ey : Z) :
  x <> S754_nan -> SFdiv prec emax x (S754_finite sy my ey) <> S754_nan.
Proof.
  intros Hn. destruct x as [sx|sx| |sx mx ex]; try (cbn [SFdiv]; congruence).
  destruct (SFdiv_rounded sx sy mx my ex ey) as (q & e' & l & Hr & _).
  apply rounded_cases in Hr as [_ [E|[E|(p & e'' & E)]]]; rewrite E; discriminate.
Qed.

Lemma SFdiv_fin_le (Bx B : Q) (sx sy : bool) (x : spec_float)
      (my : positive) (ey : Z) :
  fin_le Bx sx x -> (Bx <= B * Qval (Zpos my) ey)%Q -> repr B ->
  fin_le B (xorb sx sy) (SFdiv prec emax x (S754_finite sy my ey)).
Proof.
  intros [->|(mx & ex & -> & Hx)] HB Hrep; [left; reflexivity|].
  destruct (SFdiv_rounded sx sy mx my ex ey) as (q & e' & l & Hr & Hq & He & Hle & Hlt).
  pose proof (Qval_pos (Zpos my) ey ltac:(lia)) as Hy.
  eapply rounded_fin_le; try eassumption.
  - apply Qmult_le_r with (z := Qval (Zpos my) ey); [exact Hy|].
    eapply Qle_trans; [exact Hle|]. eapply Qle_trans; eassumption.
  - intros Hl. apply Qmult_lt_r with (z := Qval (Zpos my) ey); [exact Hy|].
    eapply Qlt_le_trans; [apply Hlt; exact Hl|]. eapply Qle_trans; eassumption.
Qed.

(** Subtraction. *)
Lemma SFsub_valid (x y : spec_float) :
  valid x -> valid y -> valid (SFsub prec emax x y).
Proof.
  intros Hx Hy.
  destruct x as [sx|sx| |sx mx ex], y as [sy|sy| |sy my ey];
    try reflexivity; try exact Hx; try exact Hy.
  - destruct sx, sy; reflexivity.
  - destruct sx, sy; reflexivity.
  - cbn [SFsub]. apply binary_normalize_valid.
Qed.

Lemma SFsub_finite_not_nan (x y : spec_float) :
  x <> S754_nan -> y <> S754_nan ->
  (forall s, x <> S754_infinity s) \/ (forall s, y <> S754_infinity s) ->
  SFsub prec emax x y <> S754_nan.
Proof.
  intros Hx Hy Hi.
  destruct x as [sx|sx| |sx mx ex], y as [sy|sy| |sy my ey];
    try congruence; try (cbn [SFsub]; congruence);
    try (destruct sx, sy; discriminate);
    try (exfalso; destruct Hi as [Hi|Hi];
         [apply (Hi sx)|apply (Hi sy)]; reflexivity).
  cbn [SFsub].
  match goal with |- binary_normalize _ _ ?z ?e _ <> _ =>
    destruct (binary_normalize_valid z e) as [_ [E|[E|(p & e' & E)]]]; rewrite E; discriminate
  end.
Qed.

(** Order of the format against the order of the values. *)
Lemma canon_exp_lt (m1 e1 m2 e2 : Z) :
  0 < m1 -> 0 < m2 -> canon m1 e1 -> canon m2 e2 -> e1 < e2 ->
  (Qval m1 e1 < Qval m2 e2)%Q.
Proof.
  intros H1 H2 Hc1 Hc2 Hlt.
  pose proof (Qval_digits m1 e1 H1) as [_ Hhi].
  pose proof (Qval_digits m2 e2 H2) as [Hlo _].
  eapply Qlt_le_trans; [exact Hhi|]. eapply Qle_trans; [|exact Hlo].
  apply Qpower_le_compat_l; [|discriminate].
  unfold canon, SpecFloat.fexp in *. lia.
Qed.

Lemma SFleb_Qval (m1 m2 : positive) (e1 e2 : Z) :
  valid (S754_finite false m1 e1) -> valid (S754_finite false m2 e2) ->
  (SFleb (S754_finite false m1 e1) (S754_finite false m2 e2) = true <->
   (Qval (Zpos m1) e1 <= Qval (Zpos m2) e2)%Q).
Proof.
  intros Hv1 Hv2. apply valid_canon in Hv1 as [Hc1 _]. apply valid_canon in Hv2 as [Hc2 _].
  unfold SFleb. cbn [SFcompare].
  change (Pos.compare_cont Eq m1 m2) with (Pos.compare m1 m2).
  destruct (Z.compare_spec e1 e2) as [->|Hlt|Hgt].
  - destruct (Pos.compare_spec m1 m2) as [->|Hm|Hm].
    + split; [intros _; apply Qle_refl|reflexivity].
    + split; [intros _; apply Qval_le; lia|reflexivity].
    + split; [discriminate|]. intros H. apply Qval_le_inv in H. lia.
  - split; [intros _|reflexivity].
    apply Qlt_le_weak, canon_exp_lt; auto; lia.
  - split; [discriminate|]. intros H. exfalso.
    assert ((Qval (Zpos m2) e2 < Qval (Zpos m1) e1)%Q)
      by (apply canon_exp_lt; auto; lia).
    eapply Qlt_not_le; eassumption.
Qed.

End Format.

(** *** Comparisons *)

Lemma SFcompare_antisym (x y : spec_float) :
  SFcompare y x = option_map CompOpp (SFcompare x y).
Proof.
  destruct x as [sx|sx| |sx mx ex], y as [sy|sy| |sy my ey]; cbn;
    try reflexivity; try (destruct sx; reflexivity); try (destruct sy; reflexivity);
    try (destruct sx, sy; reflexivity).
  destruct sx, sy; try reflexivity; cbn; rewrite (Z.compare_antisym ex ey);
    destruct (ex ?= ey); cbn; try reflexivity;
    rewrite (Pos.compare_cont_antisym mx my Eq); reflexivity.
Qed.

Lemma SFltb_false_SFleb (x y : spec_float) :
  x <> S754_nan -> y <> S754_nan -> SFltb x y = false -> SFleb y x = true.
Proof.
  intros Hx Hy. unfold SFltb, SFleb. rewrite (SFcompare_antisym x y).
  destruct (SFcompare x y) as [[]|] eqn:E; cbn; try congruence.
  destruct x, y; cbn in E; congruence.
Qed.

Lemma SFleb_not_nan (x y : spec_float) :
  SFleb x y = true -> x <> S754_nan /\ y <> S754_nan.
Proof.
  unfold SFleb. destruct x, y; cbn; split; congruence.
Qed.

End FloatFacts.

(** ** Well-formed values of the sketch *)

Module Facts.
Import FloatFacts.

Lemma fprec_pos : 0 < fprec. Proof. reflexivity. Qed.
Lemma fprec_emax : fprec < femax. Proof. reflexivity. Qed.
Lemma dprec_pos : 0 < dprec. Proof. reflexivity. Qed.
Lemma dprec_emax : dprec < demax. Proof. reflexivity. Qed.

Ltac repr_by m e :=
  exists m, e; split; [reflexivity|]; split; [reflexivity|];
  split; [discriminate|]; apply Qeq_bool_iff; vm_compute; reflexivity.

Lemma repr32_1 : repr fprec femax 1.
Proof. repr_by (2 ^ 23) (-23). Qed.
Lemma repr64_1 : repr dprec demax 1.
Proof. repr_by (2 ^ 52) (-52). Qed.
Lemma repr32_100 : repr fprec femax 100.
Proof. repr_by 13107200 (-17). Qed.
Lemma repr64_100 : repr dprec demax 100.
Proof. repr_by 7036874417766400 (-46). Qed.
Lemma repr64_2p31 : repr dprec demax (inject_Z (2 ^ 31)).
Proof. repr_by (2 ^ 52) (-21). Qed.
Lemma repr64_2p33 : repr dprec demax (inject_Z (2 ^ 33)).
Proof. repr_by (2 ^ 52) (-19). Qed.
Lemma repr32_2p33 : repr fprec femax (inject_Z (2 ^ 33)).
Proof. repr_by (2 ^ 23) 10. Qed.

Lemma fin_le_finite (B : Q) (s : bool) (x : spec_float) :
  fin_le B s x -> x <> S754_nan /\ forall s', x <> S754_infinity s'.
Proof. intros [->|(p & e & -> & _)]; split; try intros s'; discriminate. Qed.

Lemma wrap_int_range (z : Z) : - 2 ^ 31 <= wrap_int z < 2 ^ 31.
Proof.
  unfold wrap_int. pose proof (Z.mod_pos_bound (z + 2 ^ 31) (2 ^ 32) ltac:(lia)). lia.
Qed.

Lemma wrap_int_small (z : Z) : - 2 ^ 31 <= z < 2 ^ 31 -> wrap_int z = z.
Proof. intros H. unfold wrap_int. rewrite Z.mod_small; lia. Qed.

(** The conversion of an ADC count is always an ordinary number. *)
Lemma adc_to_volts_finite (raw : Z) :
  - 2 ^ 31 <= raw <= 2 ^ 31 ->
  valid32 (adc_to_volts raw) /\
  exists s, fin_le (inject_Z (2 ^ 33)) s (adc_to_volts raw).
Proof.
  intros Hraw. unfold adc_to_volts, float_of_double.
  split; [apply convert_valid; exact fprec_pos|].
  exists (xorb (xorb (raw <? 0) false) false).
  apply convert_fin_le; [exact fprec_pos|exact repr32_2p33|].
  unfold dmul, ddiv, double_of_int, ADC_MAX.
  set (y := double_of_float ESP32_VOLTAGE).
  assert (Hy : fin_le 4 false y /\ valid dprec demax y).
  { split; [|reflexivity]. right. eexists _, _.
    split; [vm_compute; reflexivity|apply Qle_bool_iff; vm_compute; reflexivity]. }
  destruct Hy as [Hy Hvy].
  apply (SFmul_fin_le dprec demax dprec_pos dprec_emax (inject_Z (2 ^ 31)) 4);
    try assumption.
  - apply SFdiv_valid. exact dprec_pos.
  - apply (SFdiv_fin_le dprec demax dprec_pos (inject_Z (2 ^ 31))).
    + apply binary_normalize_fin_le; [exact dprec_pos|exact repr64_2p31|].
      unfold Qval. change (2 ^ 0)%Q with 1%Q. rewrite Qmult_1_r.
      rewrite <- Zle_Qle. lia.
    + apply Qle_bool_iff. vm_compute. reflexivity.
    + exact repr64_2p31.
  - apply Qle_bool_iff. vm_compute. reflexivity.
  - apply Qle_bool_iff. vm_compute. reflexivity.
  - exact repr64_2p33.
Qed.

Lemma average_range (read : nat -> Z) (n : nat) :
  - 2 ^ 31 <= average read n <= 2 ^ 31.
Proof. unfold average. pose proof (wrap_int_range (sum_samples read n ÷ Z.of_nat n)). lia. Qed.

Lemma in_range_cases (j : float) :
  in_range j ->
  (exists s, j = S754_zero s) \/ exists m e, j = S754_finite false m e.
Proof.
  unfold in_range, fle, SFleb. intros [H0 HF].
  destruct j as [s|s| |s m e].
  - eauto.
  - destruct s; [discriminate H0|discriminate HF].
  - discriminate H0.
  - destruct s; [discriminate H0|eauto].
Qed.

Lemma in_range_fzero : in_range fzero.
Proof. split; reflexivity. Qed.

Lemma in_range_full : in_range BATTERY_FULL_CAPACITY.
Proof. split; reflexivity. Qed.

(** The two [if]s after the update put any number back into the range. *)
Lemma clampJuice_in_range (x : float) :
  x <> S754_nan -> in_range (clampJuice x).
Proof.
  intros Hx. unfold clampJuice.
  destruct (flt x fzero) eqn:E1.
  - change (flt BATTERY_FULL_CAPACITY fzero) with false. cbv iota.
    exact in_range_fzero.
  - destruct (flt BATTERY_FULL_CAPACITY x) eqn:E2.
    + exact in_range_full.
    + split.
      * apply SFltb_false_SFleb; [exact Hx|discriminate|exact E1].
      * apply SFltb_false_SFleb; [discriminate|exact Hx|exact E2].
Qed.

Lemma clampJuice_valid (x : float) : valid32 x -> valid32 (clampJuice x).
Proof.
  intros Hx. unfold clampJuice.
  destruct (flt x fzero).
  - change (flt BATTERY_FULL_CAPACITY fzero) with false. reflexivity.
  - destruct (flt BATTERY_FULL_CAPACITY x); [reflexivity|exact Hx].
Qed.

(** The percentage of a value in the range is between 0 and 100. *)
Lemma stateOfCharge_percent (j : float) :
  valid32 j -> in_range j -> percent (stateOfCharge j).
Proof.
  intros Hv Hr. destruct (in_range_cases j Hr) as [[s ->]|(m & e & ->)].
  - destruct s; split; reflexivity.
  - destruct Hr as [_ HF].
    assert (Hq : (Qval (Zpos m) e <= Qval 12650021 (-20))%Q).
    { apply (SFleb_Qval fprec femax m 12650021 e (-20)); [exact Hv|reflexivity|exact HF]. }
    assert (H1 : fin_le 1 false (fdiv (S754_finite false m e) BATTERY_FULL_CAPACITY)).
    { apply (SFdiv_fin_le fprec femax fprec_pos (Qval 12650021 (-20)) 1 false false).
      - right. exists m, e. split; [reflexivity|exact Hq].
      - rewrite Qmult_1_l. apply Qle_refl.
      - exact repr32_1. }
    assert (H2 : fin_le 1 false
                   (double_of_float (fdiv (S754_finite false m e) BATTERY_FULL_CAPACITY))).
    { apply convert_fin_le; [exact dprec_pos|exact repr64_1|exact H1]. }
    assert (H3 : fin_le 100 false (stateOfCharge (S754_finite false m e))).
    { unfold stateOfCharge, float_of_double.
      apply convert_fin_le; [exact fprec_pos|exact repr32_100|].
      apply (SFmul_fin_le dprec demax dprec_pos dprec_emax 1 100 100 false false).
      - apply convert_valid. exact dprec_pos.
      - reflexivity.
      - exact H2.
      - right. eexists _, _. split; [reflexivity|].
        apply Qle_bool_iff. vm_compute. reflexivity.
      - discriminate.
      - apply Qle_bool_iff. reflexivity.
      - exact repr64_100. }
    assert (Hvs : valid32 (stateOfCharge (S754_finite false m e))).
    { unfold stateOfCharge, float_of_double. apply convert_valid. exact fprec_pos. }
    destruct H3 as [->|(p & e' & E & Hle)]; [split; reflexivity|].
    rewrite E in Hvs |- *. split; [reflexivity|].
    change (float_of_int 100) with (S754_finite false 13107200 (-17)).
    apply (SFleb_Qval fprec femax p 13107200 e' (-17)); [exact Hvs|reflexivity|].
    eapply Qle_trans; [exact Hle|]. apply Qle_bool_iff. vm_compute. reflexivity.
Qed.

(** *** The stored representation *)

Lemma Zdigits2_lt_pow2 (m k : Z) : 0 < m -> m < 2 ^ k -> Zdigits2 m <= k.
Proof.
  intros Hm Hk. pose proof (Zdigits2_bounds m Hm) as [Hlo _].
  pose proof (Zdigits2_pos m Hm).
  destruct (Z_lt_le_dec k (Zdigits2 m)) as [Hlt|]; [|lia].
  assert (0 <= k).
  { destruct (Z_lt_le_dec k 0); [|lia]. rewrite Z.pow_neg_r in Hk; lia. }
  assert (2 ^ k <= 2 ^ (Zdigits2 m - 1)) by (apply Z.pow_le_mono_r; lia). lia.
Qed.

(** Whatever the four bytes are, what [EEPROM.get] reads is a [float]. *)
Lemma float_of_bits_valid (b : Z) : valid32 (float_of_bits b).
Proof.
  unfold float_of_bits.
  set (s := Z.testbit b 31). set (E := (b / 2 ^ 23) mod 256). set (f := b mod 2 ^ 23).
  assert (HE : 0 <= E < 256) by (apply Z.mod_pos_bound; lia).
  assert (Hf : 0 <= f < 2 ^ 23) by (apply Z.mod_pos_bound; lia).
  destruct (Z.eqb_spec E 0) as [HE0|HE0].
  - destruct f as [|m|m] eqn:Ef; try reflexivity.
    apply canon_valid; [|unfold femax, fprec; lia].
    pose proof (Zdigits2_lt_pow2 (Zpos m) 23 ltac:(lia) ltac:(lia)).
    pose proof (Zdigits2_pos (Zpos m) ltac:(lia)).
    unfold canon, SpecFloat.fexp, SpecFloat.emin, fprec, femax. lia.
  - destruct (Z.eqb_spec E 255) as [HE1|HE1].
    + destruct (f =? 0); reflexivity.
    + destruct (f + 2 ^ 23) as [|m|m] eqn:Em; try reflexivity.
      assert (Hd : Zdigits2 (Zpos m) = 24).
      { apply Zdigits2_unique; [lia|]. change (2 ^ (24 - 1)) with (2 ^ 23).
        change (2 ^ 24) with (2 ^ 23 + 2 ^ 23). lia. }
      apply canon_valid; [|unfold femax, fprec; lia].
      unfold canon. rewrite Hd.
      unfold SpecFloat.fexp, SpecFloat.emin, fprec, femax. lia.
Qed.

(** A well-formed finite [float] is subnormal with exponent -149, or has a
    24-bit mantissa. *)
Lemma valid32_finite (s : bool) (m : positive) (e : Z) :
  valid32 (S754_finite s m e) ->
  (Zpos m < 2 ^ 23 /\ e = -149) \/
  (2 ^ 23 <= Zpos m < 2 ^ 24 /\ -149 <= e <= 104).
Proof.
  intros Hv. apply valid_canon in Hv as [Hc He].
  unfold canon, SpecFloat.fexp, SpecFloat.emin, fprec, femax in *.
  pose proof (Zdigits2_bounds (Zpos m) ltac:(lia)) as [Hlo Hhi].
  pose proof (Zdigits2_pos (Zpos m) ltac:(lia)) as Hd.
  destruct (Z_lt_le_dec (Zpos m) (2 ^ 23)) as [Hlt|Hge].
  - left. split; [exact Hlt|].
    pose proof (Zdigits2_lt_pow2 (Zpos m) 23 ltac:(lia) Hlt). lia.
  - right.
    assert (Zdigits2 (Zpos m) = 24).
    { destruct (Z_lt_le_dec (Zdigits2 (Zpos m)) 24) as [H|H].
      - assert (2 ^ Zdigits2 (Zpos m) <= 2 ^ 23) by (apply Z.pow_le_mono_r; lia). lia.
      - lia. }
    replace (Zdigits2 (Zpos m)) with 24 in *. lia.
Qed.

Lemma bits_of_float_range (x : float) :
  valid32 x -> 0 <= bits_of_float x < 2 ^ 32.
Proof.
  intros Hv. destruct x as [s|s| |s m e]; cbn [bits_of_float].
  - destruct s; cbn; lia.
  - destruct s; cbn; lia.
  - cbn; lia.
  - destruct (valid32_finite s m e Hv) as [[Hm He]|[Hm He]].
    + destruct (Z.ltb_spec (Zpos m) (2 ^ 23)); [|lia]. destruct s; lia.
    + destruct (Z.ltb_spec (Zpos m) (2 ^ 23)); [lia|]. destruct s; lia.
Qed.

Lemma word_of_bytes_of_word (w : Z) :
  0 <= w < 2 ^ 32 -> word_of_bytes (bytes_of_word w) = w.
Proof.
  intros Hw. unfold word_of_bytes, bytes_of_word.
  rewrite !Z.mod_mod by lia.
  change (2 ^ 8) with 256. change (2 ^ 16) with 65536.
  change (2 ^ 24) with 16777216. change (2 ^ 32) with 4294967296 in Hw.
  Z.div_mod_to_equations. lia.
Qed.

Lemma float_of_bits_of_float (x : float) :
  valid32 x -> float_of_bits (bits_of_float x) = x.
Proof.
  intros Hv. destruct x as [s|s| |s m e].
  - destruct s; reflexivity.
  - destruct s; reflexivity.
  - reflexivity.
  - unfold float_of_bits, bits_of_float.
    rewrite Z.testbit_odd, Z.shiftr_div_pow2 by lia.
    change (2 ^ 31) with 2147483648. change (2 ^ 23) with 8388608.
    destruct (valid32_finite s m e Hv) as [[Hm He]|[Hm He]];
      change (2 ^ 23) with 8388608 in Hm; change (2 ^ 24) with 16777216 in Hm.
    + destruct (Z.ltb_spec (Zpos m) 8388608); [|lia].
      set (S := if s then 2147483648 else 0).
      assert (HS : S = 0 /\ s = false \/ S = 2147483648 /\ s = true)
        by (destruct s; auto).
      assert (H1 : ((S + Zpos m) / 8388608) mod 256 = 0)
        by (Z.div_mod_to_equations; lia).
      assert (H2 : (S + Zpos m) mod 8388608 = Zpos m)
        by (Z.div_mod_to_equations; lia).
      assert (H3 : Z.odd ((S + Zpos m) / 2147483648) = s).
      { assert (E : (S + Zpos m) / 2147483648 = if s then 1 else 0)
          by (destruct s; Z.div_mod_to_equations; lia).
        rewrite E. destruct s; reflexivity. }
      rewrite H1, H2, H3. cbn [Z.eqb]. subst e. reflexivity.
    + destruct (Z.ltb_spec (Zpos m) 8388608); [lia|].
      set (S := if s then 2147483648 else 0).
      assert (HS : S = 0 /\ s = false \/ S = 2147483648 /\ s = true)
        by (destruct s; auto).
      set (b := S + ((e + 150) * 8388608 + (Zpos m - 8388608))).
      assert (H1 : (b / 8388608) mod 256 = e + 150)
        by (unfold b; Z.div_mod_to_equations; lia).
      assert (H2 : b mod 8388608 = Zpos m - 8388608)
        by (unfold b; Z.div_mod_to_equations; lia).
      assert (H3 : Z.odd (b / 2147483648) = s).
      { assert (E : b / 2147483648 = if s then 1 else 0)
          by (unfold b; destruct s; Z.div_mod_to_equations; lia).
        rewrite E. destruct s; reflexivity. }
      rewrite H1, H2, H3.
      destruct (Z.eqb_spec (e + 150) 0); [lia|].
      destruct (Z.eqb_spec (e + 150) 255); [lia|].
      replace (Zpos m - 8388608 + 8388608) with (Zpos m) by lia.
      replace (e + 150 - 150) with e by lia. reflexivity.
Qed.

Lemma EEPROM_roundtrip (x : float) (e : EEPROMClass) :
  valid32 x ->
  EEPROM_get (EEPROM_begin (flash (EEPROM_commit (EEPROM_put x e)))) = x.
Proof.
  intros Hv. unfold EEPROM_get, EEPROM_begin, EEPROM_commit, EEPROM_put.
  cbn [mirror flash].
  rewrite word_of_bytes_of_word by (apply bits_of_float_range; exact Hv).
  apply float_of_bits_of_float. exact Hv.
Qed.

(** *** The invariant of the running sketch *)

Lemma sampled_volts_ok (read : nat -> Z) (n : nat) :
  valid32 (adc_to_volts (average read n)) /\
  adc_to_volts (average read n) <> S754_nan /\
  forall s, adc_to_volts (average read n) <> S754_infinity s.
Proof.
  destruct (adc_to_volts_finite (average read n) (average_range read n))
    as [Hv [s Hf]].
  apply fin_le_finite in Hf. tauto.
Qed.

Lemma zeroOutCurrentSensor_ok (sk : Sketch) (read : nat -> Z) (s : State) :
  StateOK s -> StateOK (fst (zeroOutCurrentSensor sk read s)).
Proof.
  intros (Hj & Hr & _). unfold StateOK. cbn.
  destruct (sampled_volts_ok read (CALIBRATION_SAMPLES sk)) as (_ & Hn & _).
  auto.
Qed.

Lemma computeAmps_ok (noLoad csv : float) :
  noLoad <> S754_nan ->
  csv <> S754_nan -> (forall s, csv <> S754_infinity s) ->
  valid32 (computeAmps noLoad csv) /\ computeAmps noLoad csv <> S754_nan.
Proof.
  intros Hn Hnc Hic. unfold computeAmps, fdiv, CURRENT_SENSITIVITY.
  split.
  - apply SFdiv_valid. exact fprec_pos.
  - apply SFdiv_finite_not_nan; [exact fprec_pos|].
    apply SFsub_finite_not_nan; auto. exact fprec_pos.
Qed.

Lemma deadZone_ok (sk : Sketch) (amps : float) :
  valid32 amps -> amps <> S754_nan ->
  valid32 (deadZone sk amps) /\ deadZone sk amps <> S754_nan.
Proof.
  intros Hv Hn. unfold deadZone.
  destruct (deadZoneEnabled sk && flt (fabs amps) (CURRENT_NOISE_THRESHOLD sk)).
  - split; [reflexivity|discriminate].
  - auto.
Qed.

Lemma ampsUsed_ok (sk : Sketch) (amps : float) :
  valid32 amps -> amps <> S754_nan ->
  valid32 (fmul amps (timePassedInHours sk)) /\
  fmul amps (timePassedInHours sk) <> S754_nan.
Proof.
  intros Hv Hn. unfold fmul. split.
  - apply SFmul_valid; [exact fprec_pos|exact fprec_emax|exact Hv|].
    destruct sk; reflexivity.
  - destruct sk; cbn [timePassedInHours];
      unfold timePassedInHours_A, deltaTime_hours_B;
      (apply SFmul_finite_not_nan;
       [exact fprec_pos|exact fprec_emax|exact Hv|reflexivity|exact Hn]).
Qed.

Lemma tick_juice (sk : Sketch) (now : Z) (x : Sensors) (s : State) :
  batteryJuiceLeft (fst (tick sk now x s)) =
  clampJuice (fsub (batteryJuiceLeft s)
     (fmul (deadZone sk (computeAmps (noLoadVoltage s)
                (readAveragedCurrentVoltage sk (currentSamples x))))
           (timePassedInHours sk))).
Proof. reflexivity. Qed.

Lemma tick_ok (sk : Sketch) (now : Z) (x : Sensors) (s : State) :
  StateOK s -> StateOK (fst (tick sk now x s)).
Proof.
  intros (Hj & Hr & Hn). unfold StateOK.
  rewrite tick_juice. cbn [tick fst noLoadVoltage].
  destruct (sampled_volts_ok (currentSamples x) (SAMPLES_TO_AVERAGE sk))
    as (_ & Hcn & Hci).
  destruct (computeAmps_ok _ _ Hn Hcn Hci) as [Hav Han].
  fold (readAveragedCurrentVoltage sk (currentSamples x)) in Hav, Han.
  destruct (deadZone_ok sk _ Hav Han) as [Hdv Hdn].
  destruct (ampsUsed_ok sk _ Hdv Hdn) as [Huv Hun].
  set (used := fmul _ (timePassedInHours sk)) in *.
  assert (Hsv : valid32 (fsub (batteryJuiceLeft s) used)).
  { apply SFsub_valid; [exact fprec_pos|exact Hj|exact Huv]. }
  assert (Hsn : fsub (batteryJuiceLeft s) used <> S754_nan).
  { apply SFsub_finite_not_nan; [exact fprec_pos| |exact Hun|left].
    - destruct (in_range_cases _ Hr) as [[z ->]|(m & e & ->)]; discriminate.
    - intros z. destruct (in_range_cases _ Hr) as [[z' ->]|(m & e & ->)]; discriminate. }
  split; [apply clampJuice_valid; exact Hsv|].
  split; [apply clampJuice_in_range; exact Hsn|].
  auto.
Qed.

Lemma tick_report (sk : Sketch) (now : Z) (x : Sensors) (s : State) :
  exists v a t,
    snd (tick sk now x s) =
    [Report v a (stateOfCharge (batteryJuiceLeft (fst (tick sk now x s)))) t].
Proof. cbn. eauto. Qed.

Lemma save_ok (now : Z) (s : State) : StateOK s -> StateOK (fst (save now s)).
Proof. intros H. exact H. Qed.

Lemma loop_ok (sk : Sketch) (i : LoopInput) (s : State) :
  StateOK s ->
  StateOK (fst (loop sk i s)) /\ Forall EffectOK (snd (loop sk i s)).
Proof.
  intros Hs. unfold loop.
  destruct (if buttonLow i then zeroOutCurrentSensor sk (calibrationSamples i) s
            else (s, [])) as [s1 out1] eqn:E1.
  assert (H1 : StateOK s1 /\ Forall EffectOK out1).
  { destruct (buttonLow i).
    - pose proof (zeroOutCurrentSensor_ok sk (calibrationSamples i) s Hs) as H.
      rewrite E1 in H. split; [exact H|].
      cbn in E1. injection E1 as _ <-. repeat constructor.
    - injection E1 as <- <-. split; [exact Hs|constructor]. }
  destruct H1 as [Hs1 Ho1].
  destruct (if elapsed (millisAtCheck i) (timeOfLastCheck s1) 1000
            then tick sk (wrap_ulong (millisAtStamp i)) (sensors i) s1
            else (s1, [])) as [s2 out2] eqn:E2.
  assert (H2 : StateOK s2 /\ Forall EffectOK out2).
  { destruct (elapsed (millisAtCheck i) (timeOfLastCheck s1) 1000).
    - pose proof (tick_ok sk (wrap_ulong (millisAtStamp i)) (sensors i) s1 Hs1) as H.
      destruct (tick_report sk (wrap_ulong (millisAtStamp i)) (sensors i) s1)
        as (v & a & t & Hrep).
      rewrite E2 in H, Hrep. cbn [fst snd] in H, Hrep. split; [exact H|].
      rewrite Hrep. constructor; [|constructor]. cbn.
      destruct H as (Hv & Hr & _). apply stateOfCharge_percent; assumption.
    - injection E2 as <- <-. split; [exact Hs1|constructor]. }
  destruct H2 as [Hs2 Ho2].
  destruct (if usesEEPROM sk && elapsed (millisAtSaveCheck i) (timeOfLastSave s2) 60000
            then save (wrap_ulong (millisAtSaveStamp i)) s2
            else (s2, [])) as [s3 out3] eqn:E3.
  assert (H3 : StateOK s3 /\ Forall EffectOK out3).
  { destruct (usesEEPROM sk && elapsed (millisAtSaveCheck i) (timeOfLastSave s2) 60000).
    - cbn in E3. injection E3 as <- <-. split; [exact Hs2|repeat constructor].
    - injection E3 as <- <-. split; [exact Hs2|constructor]. }
  destruct H3 as [Hs3 Ho3]. cbn [fst snd].
  split; [exact Hs3|]. apply Forall_app. split; [exact Ho1|].
  apply Forall_app. split; assumption.
Qed.

Lemma run_ok (sk : Sketch) (inputs : list LoopInput) :
  forall s, StateOK s ->
  StateOK (machineState (fst (run sk inputs (Running s)))) /\
  Forall EffectOK (snd (run sk inputs (Running s))).
Proof.
  induction inputs as [|i rest IH]; intros s Hs.
  - cbn. split; [exact Hs|constructor].
  - cbn [run step].
    destruct (loop_ok sk i s Hs) as [Hs1 Ho1].
    destruct (loop sk i s) as [s1 out1]. cbn [fst snd] in Hs1, Ho1.
    destruct (IH s1 Hs1) as [Hs2 Ho2].
    destruct (run sk rest (Running s1)) as [m2 out2]. cbn [fst snd] in *.
    split; [exact Hs2|]. apply Forall_app. split; assumption.
Qed.

Lemma initialJuice_ok (sk : Sketch) (e : EEPROMClass) :
  valid32 (initialJuice sk e) /\ in_range (initialJuice sk e).
Proof.
  unfold initialJuice. destruct (usesEEPROM sk); [|split; [reflexivity|exact in_range_full]].
  unfold EEPROM_get. set (v := float_of_bits _).
  pose proof (float_of_bits_valid (word_of_bytes (mirror e))) as Hv. fold v in Hv.
  destruct (isnan v) eqn:En; [split; [reflexivity|exact in_range_full]|].
  destruct (flt v fzero) eqn:E0; [split; [reflexivity|exact in_range_full]|].
  destruct (flt BATTERY_FULL_CAPACITY v) eqn:E1;
    [split; [reflexivity|exact in_range_full]|].
  cbn [orb]. split; [exact Hv|].
  assert (v <> S754_nan) by (destruct v; discriminate).
  split; apply SFltb_false_SFleb; auto; discriminate.
Qed.

(** Once frozen, nothing happens any more. *)
Lemma run_Frozen (sk : Sketch) (inputs : list LoopInput) (s : State) :
  run sk inputs (Frozen s) = (Frozen s, []).
Proof.
  induction inputs as [|x rest IH]; [reflexivity|].
  cbn [run step]. rewrite IH. reflexivity.
Qed.

(** Neither the display nor the first calibration touches the charge. *)
Lemma setup_juice (sk : Sketch) (i : SetupInput) :
  batteryJuiceLeft (machineState (fst (setup sk i)))
  = initialJuice sk (EEPROM_begin (flashContent i)).
Proof. unfold setup. destruct (displayBegins i); reflexivity. Qed.

(** [setup] establishes the invariant. *)
Lemma setup_ok (sk : Sketch) (i : SetupInput) :
  StateOK (machineState (fst (setup sk i))).
Proof.
  unfold setup. destruct (initialJuice_ok sk (EEPROM_begin (flashContent i))) as [Hv Hr].
  destruct (displayBegins i); cbn.
  - destruct (sampled_volts_ok (startupSamples i) (CALIBRATION_SAMPLES sk)) as (_ & Hcn & _).
    split; [exact Hv|]. split; [exact Hr|exact Hcn].
  - split; [exact Hv|]. split; [exact Hr|discriminate].
Qed.

(** *** Sampling in the ADC range *)

Lemma total_bounds (read : nat -> Z) (n : nat) :
  (forall i, (i < n)%nat -> 0 <= read i <= 4095) ->
  0 <= Spec.total read n <= 4095 * Z.of_nat n.
Proof.
  induction n as [|n IH]; intros H; cbn [Spec.total]; [lia|].
  pose proof (IH (fun i Hi => H i (Nat.lt_lt_succ_r _ _ Hi))).
  pose proof (H n (Nat.lt_succ_diag_r n)). lia.
Qed.

(** With 12-bit samples and at most 1000 of them the [long] never wraps. *)
Lemma sum_samples_total (read : nat -> Z) (n : nat) :
  (n <= 1000)%nat ->
  (forall i, (i < n)%nat -> 0 <= read i <= 4095) ->
  sum_samples read n = Spec.total read n.
Proof.
  induction n as [|n IH]; intros Hn H; cbn [sum_samples Spec.total]; [reflexivity|].
  rewrite IH by (try lia; intros i Hi; apply H; lia).
  pose proof (total_bounds read n (fun i Hi => H i (Nat.lt_lt_succ_r _ _ Hi))).
  pose proof (H n (Nat.lt_succ_diag_r n)).
  apply wrap_int_small. lia.
Qed.

Lemma average_quotient (read : nat -> Z) (n : nat) :
  (0 < n <= 1000)%nat ->
  (forall i, (i < n)%nat -> 0 <= read i <= 4095) ->
  average read n = Spec.total read n / Z.of_nat n /\
  0 <= average read n <= 4095.
Proof.
  intros Hn H. unfold average. rewrite sum_samples_total by (try lia; exact H).
  pose proof (total_bounds read n H) as Ht.
  rewrite Z.quot_div_nonneg by lia.
  assert (Hq : 0 <= Spec.total read n / Z.of_nat n <= 4095).
  { split; [apply Z.div_pos; lia|].
    apply Z.div_le_upper_bound; lia. }
  rewrite wrap_int_small by lia. auto.
Qed.

Lemma total_constant (read : nat -> Z) (n : nat) (c : Z) :
  (forall i, (i < n)%nat -> read i = c) -> Spec.total read n = Z.of_nat n * c.
Proof.
  induction n as [|n IH]; intros H; cbn [Spec.total]; [lia|].
  rewrite IH by (intros i Hi; apply H; lia).
  rewrite (H n) by lia. lia.
Qed.

Lemma SAMPLES_TO_AVERAGE_bounds (sk : Sketch) : (0 < SAMPLES_TO_AVERAGE sk <= 1000)%nat.
Proof. destruct sk; cbn; lia. Qed.

Lemma CALIBRATION_SAMPLES_bounds (sk : Sketch) : (0 < CALIBRATION_SAMPLES sk <= 1000)%nat.
Proof. destruct sk; cbn; lia. Qed.

(** *** Comparisons of the sketch *)

Lemma fle_flt_false (x y : float) : fle x y = true -> flt y x = false.
Proof.
  unfold fle, flt, SFleb, SFltb. rewrite (SFcompare_antisym x y).
  destruct (SFcompare x y) as [[]|]; cbn; congruence.
Qed.

Lemma flt_flt_false (x y : float) : flt x y = true -> flt y x = false.
Proof.
  unfold flt, SFltb. rewrite (SFcompare_antisym x y).
  destruct (SFcompare x y) as [[]|]; cbn; congruence.
Qed.

Lemma feq_flt_false (x y : float) : feq x y = true -> flt x y = false.
Proof.
  unfold feq, flt, SFeqb, SFltb.
  destruct (SFcompare x y) as [[]|]; cbn; congruence.
Qed.

Lemma clampJuice_id (x : float) : in_range x -> clampJuice x = x.
Proof.
  intros [H0 HF]. unfold clampJuice.
  rewrite (fle_flt_false _ _ H0), (fle_flt_false _ _ HF). reflexivity.
Qed.

Lemma clampJuice_clamp (x : float) :
  clampJuice x = Spec.clamp fzero BATTERY_FULL_CAPACITY x.
Proof.
  unfold clampJuice, Spec.clamp. destruct (flt x fzero); reflexivity.
Qed.

Lemma fle_refl_finite (s : bool) (m : positive) (e : Z) :
  fle (S754_finite s m e) (S754_finite s m e) = true.
Proof.
  unfold fle, SFleb. cbn [SFcompare].
  rewrite Z.compare_refl.
  change (Pos.compare_cont Eq m m) with (Pos.compare m m).
  rewrite Pos.compare_refl. destruct s; reflexivity.
Qed.

(** *** A positive current never raises the estimate *)

Lemma discharge_le (j used : float) :
  valid32 j -> in_range j -> signed false used ->
  fle (clampJuice (fsub j used)) j = true.
Proof.
  intros Hv Hr Hu.
  assert (Hz : fle fzero j = true) by apply Hr.
  destruct (in_range_cases j Hr) as [[s ->]|(m & e & ->)].
  - destruct Hu as [->|[->|(p & e' & ->)]]; destruct s; reflexivity.
  - destruct Hu as [->|[->|(p & e' & ->)]].
    + cbn [fsub SFsub]. rewrite clampJuice_id by exact Hr. apply fle_refl_finite.
    + exact Hz.
    + unfold fsub. cbn [SFsub cond_Zopp].
      set (ez := Z.min e e').
      pose proof (shl_align_spec m e ez) as [Hm _].
      pose proof (shl_align_spec p e' ez) as [Hp _].
      cbv zeta in Hm, Hp.
      set (mj := Zpos (fst (shl_align m e ez))) in *.
      set (mu := Zpos (fst (shl_align p e' ez))) in *.
      assert (Hk : Z.max (e - ez) 0 = e - ez) by (unfold ez; lia).
      rewrite Hk in Hm.
      assert (Hmj : (Qval mj ez == Qval (Zpos m) e)%Q).
      { rewrite Hm, Qval_scale by lia. replace (ez + (e - ez)) with e by lia.
        reflexivity. }
      assert (Hmu : 0 < mu) by (unfold mu; lia).
      destruct (Z.lt_trichotomy (mj - mu) 0) as [Hneg|[Hzero|Hpos]].
      * destruct (binary_normalize_valid fprec femax fprec_pos (mj - mu) ez)
          as [_ Hs].
        replace (mj - mu <? 0) with true in Hs by (symmetry; apply Z.ltb_lt; exact Hneg).
        destruct Hs as [->|[->|(q & e'' & ->)]]; exact Hz.
      * rewrite Hzero. exact Hz.
      * assert (Hrep : repr fprec femax (Qval (Zpos m) e)).
        { destruct (valid_canon fprec femax false m e Hv) as [Hc He].
          exists (Zpos m), e.
          split; [lia|]. split; [exact Hc|]. split; [exact He|apply Qeq_refl]. }
        pose proof (binary_normalize_fin_le fprec femax fprec_pos (mj - mu) ez
                      (Qval (Zpos m) e) Hrep) as Hf.
        replace (mj - mu <? 0) with false in Hf by (symmetry; apply Z.ltb_ge; lia).
        assert (Hle : (Qval (Z.abs (mj - mu)) ez <= Qval (Zpos m) e)%Q).
        { rewrite <- Hmj. apply Qval_le. lia. }
        specialize (Hf Hle).
        destruct (binary_normalize_valid fprec femax fprec_pos (mj - mu) ez)
          as [Hvt _].
        destruct Hf as [E|(q & e'' & E & Hq)]; rewrite E in Hvt |- *.
        -- exact Hz.
        -- assert (Hqj : fle (S754_finite false q e'') (S754_finite false m e) = true).
           { apply (SFleb_Qval fprec femax); assumption. }
           assert (HqF : fle (S754_finite false q e'') BATTERY_FULL_CAPACITY = true).
           { apply (SFleb_Qval fprec femax q 12650021 e'' (-20)); [exact Hvt|reflexivity|].
             eapply Qle_trans; [exact Hq|].
             apply (SFleb_Qval fprec femax m 12650021 e (-20)); [exact Hv|reflexivity|].
             apply Hr. }
           rewrite clampJuice_id by (split; [reflexivity|exact HqF]).
           exact Hqj.
Qed.

Lemma fmul_positive_signed (x y : float) :
  valid32 x -> valid32 y -> flt fzero x = true -> flt fzero y = true ->
  signed false (fmul x y).
Proof.
  intros Hx Hy Hpx Hpy. unfold flt, SFltb, fzero in Hpx, Hpy.
  destruct x as [sx|sx| |sx mx ex]; cbn in Hpx; try discriminate;
    destruct sx; try discriminate;
    destruct y as [sy|sy| |sy my ey]; cbn in Hpy; try discriminate;
    destruct sy; try discriminate; unfold signed, fmul; cbn [SFmul xorb]; eauto.
  destruct (SFmul_rounded fprec femax fprec_pos fprec_emax false false mx my ex ey Hx Hy)
    as [Hr _].
  apply rounded_cases in Hr as [_ Hc]. exact Hc.
Qed.

End Facts.
Import FloatFacts Facts.

(** ** The properties *)

(** C1 (clamp invariant).  From any state whose charge is a [float] between
    empty and full (the zero point being a number, not NaN), after any
    sequence of passes of [loop] -- ticks, recalibrations and saves in any
    order -- and after each of them, the charge is again between empty and
    full, and every percentage reported on the way is between 0 and 100. *)
Theorem clamp_invariant (sk : Sketch) (s : State) (inputs : list LoopInput) :
  valid32 (batteryJuiceLeft s) -> in_range (batteryJuiceLeft s) ->
  noLoadVoltage s <> S754_nan ->
  (forall k,
      in_range (batteryJuiceLeft
                  (machineState (fst (run sk (firstn k inputs) (Running s)))))) /\
  (forall v a soc t,
      In (Report v a soc t) (snd (run sk inputs (Running s))) -> percent soc).
Proof.
  intros Hj Hr Hn.
  assert (Hok : StateOK s) by exact (conj Hj (conj Hr Hn)).
  split.
  - intros k. destruct (run_ok sk (firstn k inputs) s Hok) as [Hs _]. apply Hs.
  - destruct (run_ok sk inputs s Hok) as [_ Ho].
    intros v a soc t Hin. rewrite Forall_forall in Ho. exact (Ho _ Hin).
Qed.

Lemma clamp_invariant_witness :
  valid32 (batteryJuiceLeft fullState) /\ in_range (batteryJuiceLeft fullState) /\
  noLoadVoltage fullState <> S754_nan /\
  in_range (batteryJuiceLeft (machineState
     (fst (run SketchA (firstn 2 [passAt 4000; buttonPass 4500; passAt 5000])
               (Running fullState))))).
Proof.
  assert (H1 : valid32 (batteryJuiceLeft fullState)) by (vm_compute; reflexivity).
  assert (H2 : in_range (batteryJuiceLeft fullState))
    by (split; vm_compute; reflexivity).
  assert (H3 : noLoadVoltage fullState <> S754_nan) by (vm_compute; discriminate).
  split; [exact H1|]. split; [exact H2|]. split; [exact H3|].
  exact (proj1 (clamp_invariant SketchA fullState
                  [passAt 4000; buttonPass 4500; passAt 5000] H1 H2 H3) 2%nat).
Defined.

(** From power-up on, every state the machine reaches satisfies the
    hypotheses of the clamp invariant, whatever the flash held. *)
Corollary reachable_ok (sk : Sketch) (i : SetupInput) (inputs : list LoopInput) :
  StateOK (machineState (fst (run sk inputs (fst (setup sk i))))).
Proof.
  pose proof (setup_ok sk i) as Hs.
  destruct (fst (setup sk i)) as [s|s]; cbn [machineState] in Hs.
  - rewrite run_Frozen. exact Hs.
  - apply run_ok. exact Hs.
Qed.

Lemma timePassedInHours_one_second (sk : Sketch) :
  timePassedInHours sk = Spec.oneSecondInHours.
Proof. destruct sk; vm_compute; reflexivity. Qed.

Lemma stateOfCharge_spec (j : float) :
  stateOfCharge j = Spec.stateOfChargePercent j BATTERY_FULL_CAPACITY.
Proof.
  unfold stateOfCharge, Spec.stateOfChargePercent.
  replace (double_of_int 100) with HUNDRED by (vm_compute; reflexivity).
  reflexivity.
Qed.

Lemma deadZone_spec (sk : Sketch) (amps : float) :
  deadZone sk amps =
  Spec.deadZoneFilter (deadZoneEnabled sk) (CURRENT_NOISE_THRESHOLD sk) amps.
Proof.
  unfold deadZone, Spec.deadZoneFilter. destruct (deadZoneEnabled sk); reflexivity.
Qed.

(** C2, as the specification has it, fails: in [SketchA] the dead zone
    stands between the computed current and the subtraction.  With the zero
    point at count 2048 and the sensor at 2040 the computed current is about
    0.035 A; the sketch treats it as 0 and keeps the 6 Ah it had, where
    subtracting [current * (1/3600 h)] would leave less. *)
Lemma tick_subtracts_unfiltered_current_fails :
  batteryJuiceLeft (fst (tick SketchA 4000 (sensorsAt 2040) halfState))
  <> Spec.clamp fzero BATTERY_FULL_CAPACITY
       (fsub (batteryJuiceLeft halfState)
          (Spec.chargeDeltaAh
             (Spec.current (noLoadVoltage halfState)
                (readAveragedCurrentVoltage SketchA (currentSamples (sensorsAt 2040)))
                CURRENT_SENSITIVITY)
             Spec.oneSecondInHours)).
Proof. vm_compute. discriminate. Qed.

(** C2, amended (the per-tick algorithm).  A tick computes the current as
    [(zero point - sensor voltage) / sensitivity], passes it through the
    dead-zone filter of the sketch (on in [SketchA], off in [SketchB]),
    subtracts [current * (1/3600 h)] from the remaining capacity, clamps the
    result to [[0, full]] and reports [remaining / full * 100]; it leaves the
    zero point alone.  The sign is the one of a discharge: when the current
    is positive the remaining capacity does not go up. *)
Theorem tick_follows_algorithm (sk : Sketch) (now : Z) (x : Sensors) (s : State) :
  let sensed := Spec.current (noLoadVoltage s)
                  (readAveragedCurrentVoltage sk (currentSamples x))
                  CURRENT_SENSITIVITY in
  let amps := Spec.deadZoneFilter (deadZoneEnabled sk)
                (CURRENT_NOISE_THRESHOLD sk) sensed in
  let remaining := Spec.clamp fzero BATTERY_FULL_CAPACITY
                     (fsub (batteryJuiceLeft s)
                           (Spec.chargeDeltaAh amps Spec.oneSecondInHours)) in
  batteryJuiceLeft (fst (tick sk now x s)) = remaining /\
  noLoadVoltage (fst (tick sk now x s)) = noLoadVoltage s /\
  snd (tick sk now x s) =
    [Report (readVoltage (rawVoltageReading x)) amps
            (Spec.stateOfChargePercent remaining BATTERY_FULL_CAPACITY)
            (if usesTempProbe sk then Some (tempC x) else None)] /\
  (deadZoneEnabled sk = false \/
   flt (fabs sensed) (CURRENT_NOISE_THRESHOLD sk) = false -> amps = sensed) /\
  (valid32 (batteryJuiceLeft s) -> in_range (batteryJuiceLeft s) ->
   flt fzero amps = true -> fle remaining (batteryJuiceLeft s) = true).
Proof.
  intros sensed amps remaining.
  assert (Ha : deadZone sk (computeAmps (noLoadVoltage s)
                 (readAveragedCurrentVoltage sk (currentSamples x))) = amps)
    by apply deadZone_spec.
  assert (Hr : batteryJuiceLeft (fst (tick sk now x s)) = remaining).
  { rewrite tick_juice, Ha, timePassedInHours_one_second. apply clampJuice_clamp. }
  split; [exact Hr|]. split; [reflexivity|]. split; [|split].
  - unfold tick. cbn [snd]. rewrite Ha. fold (tick sk now x s).
    rewrite timePassedInHours_one_second, clampJuice_clamp, stateOfCharge_spec.
    reflexivity.
  - unfold amps, Spec.deadZoneFilter. intros [H|H]; rewrite H; [reflexivity|].
    destruct (deadZoneEnabled sk); reflexivity.
  - intros Hv Hin Hpos. unfold remaining. rewrite <- clampJuice_clamp.
    apply discharge_le; [exact Hv|exact Hin|].
    apply fmul_positive_signed.
    + unfold amps, Spec.deadZoneFilter.
      destruct (deadZoneEnabled sk);
        [destruct (flt (fabs sensed) (CURRENT_NOISE_THRESHOLD sk)); [reflexivity|]|];
        apply SFdiv_valid; exact fprec_pos.
    + vm_compute. reflexivity.
    + exact Hpos.
    + vm_compute. reflexivity.
Qed.

Lemma tick_follows_algorithm_witness :
  valid32 (batteryJuiceLeft fullState) /\ in_range (batteryJuiceLeft fullState) /\
  flt fzero (Spec.deadZoneFilter true (CURRENT_NOISE_THRESHOLD SketchA)
               (Spec.current (noLoadVoltage fullState)
                  (readAveragedCurrentVoltage SketchA (currentSamples discharging))
                  CURRENT_SENSITIVITY)) = true /\
  fle (batteryJuiceLeft (fst (tick SketchA 4000 discharging fullState)))
      (batteryJuiceLeft fullState) = true.
Proof.
  assert (H1 : valid32 (batteryJuiceLeft fullState)) by (vm_compute; reflexivity).
  assert (H2 : in_range (batteryJuiceLeft fullState))
    by (split; vm_compute; reflexivity).
  assert (H3 : flt fzero (Spec.deadZoneFilter true (CURRENT_NOISE_THRESHOLD SketchA)
               (Spec.current (noLoadVoltage fullState)
                  (readAveragedCurrentVoltage SketchA (currentSamples discharging))
                  CURRENT_SENSITIVITY)) = true) by (vm_compute; reflexivity).
  split; [exact H1|]. split; [exact H2|]. split; [exact H3|].
  pose proof (tick_follows_algorithm SketchA 4000 discharging fullState) as T.
  cbv zeta in T. destruct T as (Hr & _ & _ & _ & Hd).
  rewrite Hr. exact (Hd H1 H2 H3).
Defined.

(** C3 (startup fallback).  After [setup] of [SketchA] the remaining
    capacity is the full capacity when the stored value reads as NaN (as the
    erased flash of a first run does), as a negative number or as more than
    the full capacity, and it is the stored value otherwise; neither the
    display nor the calibration changes that.  [SketchB] stores nothing and
    always starts full. *)
Theorem startup_fallback (i : SetupInput) :
  let loaded := EEPROM_get (EEPROM_begin (flashContent i)) in
  batteryJuiceLeft (machineState (fst (setup SketchA i))) =
    (if isnan loaded || flt loaded fzero || flt BATTERY_FULL_CAPACITY loaded
     then BATTERY_FULL_CAPACITY else loaded) /\
  EEPROM_get (EEPROM_begin (255, 255, 255, 255)) = S754_nan /\
  batteryJuiceLeft (machineState (fst (setup SketchB i))) = BATTERY_FULL_CAPACITY.
Proof.
  intros loaded. split; [|split].
  - rewrite setup_juice. reflexivity.
  - vm_compute. reflexivity.
  - rewrite setup_juice. reflexivity.
Qed.

(** C4 (calibration of a constant signal).  When every sample of a
    calibration is the same count [c] of the 12-bit ADC, the new zero point
    is exactly [(c / 4095.0) * ESP32_VOLTAGE]. *)
Theorem calibration_of_constant_samples
        (sk : Sketch) (read : nat -> Z) (c : Z) (s : State) :
  0 <= c <= 4095 ->
  (forall i, (i < CALIBRATION_SAMPLES sk)%nat -> read i = c) ->
  noLoadVoltage (fst (zeroOutCurrentSensor sk read s)) =
  float_of_double (dmul (ddiv (double_of_int c) ADC_MAX)
                        (double_of_float ESP32_VOLTAGE)).
Proof.
  intros Hc Hread. cbn [zeroOutCurrentSensor fst noLoadVoltage].
  pose proof (CALIBRATION_SAMPLES_bounds sk) as Hn.
  destruct (average_quotient read (CALIBRATION_SAMPLES sk) Hn) as [Hq _].
  { intros i Hi. rewrite (Hread i Hi). exact Hc. }
  rewrite Hq, (total_constant read _ c Hread).
  rewrite Z.mul_comm, Z.div_mul by lia. reflexivity.
Qed.

Lemma calibration_of_constant_samples_witness :
  0 <= 2048 <= 4095 /\
  (forall i, (i < CALIBRATION_SAMPLES SketchA)%nat -> (fun _ : nat => 2048) i = 2048) /\
  noLoadVoltage (fst (zeroOutCurrentSensor SketchA (fun _ => 2048) fullState)) =
  float_of_double (dmul (ddiv (double_of_int 2048) ADC_MAX)
                        (double_of_float ESP32_VOLTAGE)).
Proof.
  assert (H1 : 0 <= 2048 <= 4095) by lia.
  assert (H2 : forall i, (i < CALIBRATION_SAMPLES SketchA)%nat ->
                         (fun _ : nat => 2048) i = 2048) by (intros; reflexivity).
  split; [exact H1|]. split; [exact H2|].
  exact (calibration_of_constant_samples SketchA (fun _ => 2048) 2048 fullState H1 H2).
Defined.

(** C5 (dead zone).  Where the filter is on, a current whose absolute value
    is below the threshold becomes exactly [+0]; one whose absolute value is
    above the threshold, or equal to it, is left as it is: the comparison is
    a strict [<]. *)
Theorem deadZone_strict (sk : Sketch) (amps : float) :
  deadZoneEnabled sk = true ->
  (flt (fabs amps) (CURRENT_NOISE_THRESHOLD sk) = true ->
   deadZone sk amps = S754_zero false) /\
  (flt (CURRENT_NOISE_THRESHOLD sk) (fabs amps) = true -> deadZone sk amps = amps) /\
  (feq (fabs amps) (CURRENT_NOISE_THRESHOLD sk) = true -> deadZone sk amps = amps).
Proof.
  intros Hon. unfold deadZone. rewrite Hon. cbn [andb].
  split; [|split]; intros H.
  - rewrite H. reflexivity.
  - rewrite (flt_flt_false _ _ H). reflexivity.
  - rewrite (feq_flt_false _ _ H). reflexivity.
Qed.

Lemma deadZone_strict_witness :
  deadZoneEnabled SketchA = true /\
  deadZone SketchA (fdiv (float_of_int (-3)) (float_of_int 100)) = S754_zero false /\
  deadZone SketchA (fdiv (float_of_int (-7)) (float_of_int 100))
    = fdiv (float_of_int (-7)) (float_of_int 100) /\
  deadZone SketchA (CURRENT_NOISE_THRESHOLD SketchA) = CURRENT_NOISE_THRESHOLD SketchA.
Proof.
  assert (Hon : deadZoneEnabled SketchA = true) by reflexivity.
  split; [exact Hon|].
  split; [|split].
  - apply (proj1 (deadZone_strict SketchA _ Hon)). vm_compute. reflexivity.
  - apply (proj1 (proj2 (deadZone_strict SketchA _ Hon))). vm_compute. reflexivity.
  - apply (proj2 (proj2 (deadZone_strict SketchA _ Hon))). vm_compute. reflexivity.
Defined.

(** C6 (persistence round trip).  A capacity between empty and full that
    [loop] saves is what [EEPROM.get] reads back from the flash, and it is
    the capacity [setup] starts from after a power cycle. *)
Theorem persistence_roundtrip (x : float) (s : State) (now : Z) (i : SetupInput) :
  valid32 x -> in_range x -> batteryJuiceLeft s = x ->
  EEPROM_get (EEPROM_begin (flash (EEPROM (fst (save now s))))) = x /\
  batteryJuiceLeft
    (machineState (fst (powerCycle SketchA (Running (fst (save now s))) i))) = x.
Proof.
  intros Hv Hr Hx.
  assert (Hget : EEPROM_get (EEPROM_begin (flash (EEPROM (fst (save now s))))) = x).
  { cbn [save fst EEPROM]. rewrite Hx. apply EEPROM_roundtrip. exact Hv. }
  split; [exact Hget|].
  unfold powerCycle. cbn [machineState].
  rewrite setup_juice. cbn [flashContent].
  unfold initialJuice. cbn [usesEEPROM]. rewrite Hget.
  destruct Hr as [H0 HF].
  rewrite (fle_flt_false _ _ H0), (fle_flt_false _ _ HF).
  destruct x; try reflexivity. discriminate H0.
Qed.

Lemma persistence_roundtrip_witness :
  valid32 (batteryJuiceLeft (fst (tick SketchA 4000 discharging fullState))) /\
  in_range (batteryJuiceLeft (fst (tick SketchA 4000 discharging fullState))) /\
  batteryJuiceLeft
    (machineState
       (fst (powerCycle SketchA
               (Running (fst (save 63000 (fst (tick SketchA 4000 discharging fullState)))))
               (powerUp (0, 0, 0, 0) true))))
  = batteryJuiceLeft (fst (tick SketchA 4000 discharging fullState)).
Proof.
  assert (H1 : valid32 (batteryJuiceLeft (fst (tick SketchA 4000 discharging fullState))))
    by (vm_compute; reflexivity).
  assert (H2 : in_range (batteryJuiceLeft (fst (tick SketchA 4000 discharging fullState))))
    by (split; vm_compute; reflexivity).
  split; [exact H1|]. split; [exact H2|].
  exact (proj2 (persistence_roundtrip _ (fst (tick SketchA 4000 discharging fullState))
                  63000 (powerUp (0, 0, 0, 0) true) H1 H2 eq_refl)).
Defined.

(** C7, as the specification has it, fails: the sketch averages in an
    [int].  With samples flickering between 2047 and 2048 the mean is
    2047.5 counts, the sketch converts 2047. *)
Lemma averaged_current_not_true_mean :
  readAveragedCurrentVoltage SketchA flicker
  <> Spec.meanVolts flicker (SAMPLES_TO_AVERAGE SketchA).
Proof. vm_compute. discriminate. Qed.

(** C7, amended.  With 12-bit samples the averaged current reading is the
    conversion to volts of the integer quotient of the sum of the samples by
    their number: the mean with its fraction dropped, less than one count
    below the true mean. *)
Theorem averaged_current_is_integer_mean (sk : Sketch) (read : nat -> Z) :
  (forall i, (i < SAMPLES_TO_AVERAGE sk)%nat -> 0 <= read i <= 4095) ->
  let n := Z.of_nat (SAMPLES_TO_AVERAGE sk) in
  let q := Spec.total read (SAMPLES_TO_AVERAGE sk) / n in
  readAveragedCurrentVoltage sk read = adc_to_volts q /\
  n * q <= Spec.total read (SAMPLES_TO_AVERAGE sk) < n * q + n.
Proof.
  intros Hread n q.
  pose proof (SAMPLES_TO_AVERAGE_bounds sk) as Hn.
  destruct (average_quotient read (SAMPLES_TO_AVERAGE sk) Hn Hread) as [Hq _].
  split.
  - unfold readAveragedCurrentVoltage. rewrite Hq. reflexivity.
  - unfold q.
    pose proof (Z.mul_div_le (Spec.total read (SAMPLES_TO_AVERAGE sk)) n ltac:(lia)).
    pose proof (Z.mul_succ_div_gt (Spec.total read (SAMPLES_TO_AVERAGE sk)) n ltac:(lia)).
    lia.
Qed.

Lemma averaged_current_is_integer_mean_witness :
  (forall i, (i < SAMPLES_TO_AVERAGE SketchA)%nat -> 0 <= flicker i <= 4095) /\
  readAveragedCurrentVoltage SketchA flicker = adc_to_volts 2047.
Proof.
  assert (H : forall i, (i < SAMPLES_TO_AVERAGE SketchA)%nat -> 0 <= flicker i <= 4095).
  { intros i _. unfold flicker. destruct (Nat.even i); lia. }
  split; [exact H|].
  exact (proj1 (averaged_current_is_integer_mean SketchA flicker H)).
Defined.

(** C8 (calibration leaves the charge alone).  A calibration writes the zero
    point and nothing else: remaining capacity, timers and EEPROM are as
    before and nothing but the calibration is emitted.  So the capacity
    [setup] ends with is the one it loaded, and a pass of [loop] in which no
    tick is due ends with the capacity it began with, button or not. *)
Theorem calibration_keeps_charge (sk : Sketch) (read : nat -> Z) (s : State) :
  (batteryJuiceLeft (fst (zeroOutCurrentSensor sk read s)) = batteryJuiceLeft s /\
   EEPROM (fst (zeroOutCurrentSensor sk read s)) = EEPROM s /\
   timeOfLastCheck (fst (zeroOutCurrentSensor sk read s)) = timeOfLastCheck s /\
   timeOfLastSave (fst (zeroOutCurrentSensor sk read s)) = timeOfLastSave s /\
   snd (zeroOutCurrentSensor sk read s)
     = [Calibrated (noLoadVoltage (fst (zeroOutCurrentSensor sk read s)))]) /\
  (forall i : SetupInput,
      batteryJuiceLeft (machineState (fst (setup sk i)))
      = initialJuice sk (EEPROM_begin (flashContent i))) /\
  (forall i : LoopInput,
      elapsed (millisAtCheck i) (timeOfLastCheck s) 1000 = false ->
      batteryJuiceLeft (fst (loop sk i s)) = batteryJuiceLeft s).
Proof.
  split; [repeat split|]. split.
  - intros i. apply setup_juice.
  - intros i Hno. unfold loop.
    destruct (buttonLow i); cbn [zeroOutCurrentSensor timeOfLastCheck];
      rewrite Hno;
      destruct (usesEEPROM sk && elapsed _ _ 60000); reflexivity.
Qed.

Lemma calibration_keeps_charge_witness :
  elapsed (millisAtCheck (buttonPass 3500)) (timeOfLastCheck fullState) 1000 = false /\
  batteryJuiceLeft (fst (loop SketchA (buttonPass 3500) fullState))
  = batteryJuiceLeft fullState.
Proof.
  assert (H : elapsed (millisAtCheck (buttonPass 3500)) (timeOfLastCheck fullState) 1000
              = false) by reflexivity.
  split; [exact H|].
  exact (proj2 (proj2 (calibration_keeps_charge SketchA (fun _ => 0) fullState))
           (buttonPass 3500) H).
Defined.

(** C9 (no display, no operation).  When the display does not start,
    [setup] emits nothing and never returns: whatever the world does
    afterwards, the machine stays where it froze and emits nothing -- no
    report of a tick, no calibration, no save. *)
Theorem display_failure_halts (sk : Sketch) (i : SetupInput) (inputs : list LoopInput) :
  displayBegins i = false ->
  snd (setup sk i) = [] /\
  (exists s, fst (setup sk i) = Frozen s) /\
  run sk inputs (fst (setup sk i)) = (fst (setup sk i), []).
Proof.
  intros Hd. unfold setup. rewrite Hd. cbn [fst snd].
  split; [reflexivity|]. split; [eauto|].
  apply run_Frozen.
Qed.

Lemma display_failure_halts_witness :
  displayBegins (powerUp (255, 255, 255, 255) false) = false /\
  run SketchA [buttonPass 4000; passAt 70000]
      (fst (setup SketchA (powerUp (255, 255, 255, 255) false)))
  = (fst (setup SketchA (powerUp (255, 255, 255, 255) false)), []).
Proof.
  split; [reflexivity|].
  exact (proj2 (proj2 (display_failure_halts SketchA
                         (powerUp (255, 255, 255, 255) false)
                         [buttonPass 4000; passAt 70000] eq_refl))).
Defined.

(** C10 (fixed time step).  A tick subtracts [current * (1/3600 h)] whatever
    the clock says: two passes of [loop] that read the same button and
    sensors and in which the tick is due end with the same remaining
    capacity, on time or late. *)
Theorem tick_uses_fixed_time_step (sk : Sketch) (s : State) (i i' : LoopInput) :
  buttonLow i' = buttonLow i ->
  calibrationSamples i' = calibrationSamples i ->
  sensors i' = sensors i ->
  elapsed (millisAtCheck i) (timeOfLastCheck s) 1000 = true ->
  elapsed (millisAtCheck i') (timeOfLastCheck s) 1000 = true ->
  batteryJuiceLeft (fst (loop sk i' s)) = batteryJuiceLeft (fst (loop sk i s)) /\
  batteryJuiceLeft (fst (loop sk i s)) =
    clampJuice
      (fsub (batteryJuiceLeft s)
            (fmul (deadZone sk
                     (computeAmps (noLoadVoltage (afterButton sk i s))
                        (readAveragedCurrentVoltage sk (currentSamples (sensors i)))))
                  Spec.oneSecondInHours)).
Proof.
  intros Hb Hc Hs Hdue Hdue'.
  assert (Hloop : forall j : LoopInput,
             elapsed (millisAtCheck j) (timeOfLastCheck s) 1000 = true ->
             batteryJuiceLeft (fst (loop sk j s)) =
             clampJuice
               (fsub (batteryJuiceLeft s)
                     (fmul (deadZone sk
                              (computeAmps (noLoadVoltage (afterButton sk j s))
                                 (readAveragedCurrentVoltage sk (currentSamples (sensors j)))))
                           Spec.oneSecondInHours))).
  { intros j Hj. rewrite <- (timePassedInHours_one_second sk).
    unfold loop, afterButton.
    destruct (buttonLow j); cbn [zeroOutCurrentSensor timeOfLastCheck fst];
      rewrite Hj; unfold tick;
      match goal with
      | |- context [if ?c then save _ _ else _] => destruct c
      end; reflexivity. }
  split; [|apply Hloop; exact Hdue].
  rewrite (Hloop i Hdue), (Hloop i' Hdue').
  unfold afterButton. rewrite Hb, Hc, Hs. reflexivity.
Qed.

Lemma tick_uses_fixed_time_step_witness :
  elapsed (millisAtCheck (passAt 4000)) (timeOfLastCheck fullState) 1000 = true /\
  elapsed (millisAtCheck (passAt 9000)) (timeOfLastCheck fullState) 1000 = true /\
  batteryJuiceLeft (fst (loop SketchA (passAt 9000) fullState))
  = batteryJuiceLeft (fst (loop SketchA (passAt 4000) fullState)).
Proof.
  assert (H1 : elapsed (millisAtCheck (passAt 4000)) (timeOfLastCheck fullState) 1000
               = true) by reflexivity.
  assert (H2 : elapsed (millisAtCheck (passAt 9000)) (timeOfLastCheck fullState) 1000
               = true) by reflexivity.
  split; [exact H1|]. split; [exact H2|].
  exact (proj1 (tick_uses_fixed_time_step SketchA fullState (passAt 4000) (passAt 9000)
                  eq_refl eq_refl eq_refl H1 H2)).
Defined.

(** ** Further properties of the sketch *)

Module MoreFacts.

Lemma lastSaved_app (a b : list Effect) :
  lastSaved (a ++ b) =
  match lastSaved b with Some x => Some x | None => lastSaved a end.
Proof.
  induction a as [|e a IH]; cbn [app lastSaved].
  - destruct (lastSaved b); reflexivity.
  - rewrite IH. destruct (lastSaved b); reflexivity.
Qed.

Lemma loop_parts (sk : Sketch) (i : LoopInput) (s : State) :
  loop sk i s =
  (fst (savePart sk i (fst (tickPart sk i (fst (buttonPart sk i s))))),
   snd (buttonPart sk i s) ++
   snd (tickPart sk i (fst (buttonPart sk i s))) ++
   snd (savePart sk i (fst (tickPart sk i (fst (buttonPart sk i s)))))).
Proof.
  unfold loop, buttonPart, tickPart, savePart.
  destruct (buttonLow i);
    [destruct (zeroOutCurrentSensor sk (calibrationSamples i) s) as [s1 o1]|];
    cbn [fst snd];
    (destruct (elapsed (millisAtCheck i) (timeOfLastCheck _) 1000);
     [destruct (tick sk (wrap_ulong (millisAtStamp i)) (sensors i) _) as [s2 o2]|]);
    cbn [fst snd];
    (destruct (usesEEPROM sk && elapsed (millisAtSaveCheck i) (timeOfLastSave _) 60000);
     [destruct (save (wrap_ulong (millisAtSaveStamp i)) _) as [s3 o3]|]);
    reflexivity.
Qed.

Lemma buttonPart_frame (sk : Sketch) (i : LoopInput) (s : State) :
  batteryJuiceLeft (fst (buttonPart sk i s)) = batteryJuiceLeft s /\
  timeOfLastCheck (fst (buttonPart sk i s)) = timeOfLastCheck s /\
  timeOfLastSave (fst (buttonPart sk i s)) = timeOfLastSave s /\
  EEPROM (fst (buttonPart sk i s)) = EEPROM s /\
  lastSaved (snd (buttonPart sk i s)) = None.
Proof. unfold buttonPart. destruct (buttonLow i); repeat split. Qed.

Lemma tickPart_frame (sk : Sketch) (i : LoopInput) (s : State) :
  noLoadVoltage (fst (tickPart sk i s)) = noLoadVoltage s /\
  timeOfLastSave (fst (tickPart sk i s)) = timeOfLastSave s /\
  EEPROM (fst (tickPart sk i s)) = EEPROM s /\
  lastSaved (snd (tickPart sk i s)) = None.
Proof.
  unfold tickPart.
  destruct (elapsed (millisAtCheck i) (timeOfLastCheck s) 1000); repeat split.
Qed.

Lemma savePart_frame (sk : Sketch) (i : LoopInput) (s : State) :
  noLoadVoltage (fst (savePart sk i s)) = noLoadVoltage s /\
  batteryJuiceLeft (fst (savePart sk i s)) = batteryJuiceLeft s /\
  timeOfLastCheck (fst (savePart sk i s)) = timeOfLastCheck s.
Proof.
  unfold savePart.
  destruct (usesEEPROM sk && elapsed (millisAtSaveCheck i) (timeOfLastSave s) 60000);
    repeat split.
Qed.

Lemma savePart_flash (sk : Sketch) (i : LoopInput) (s : State) :
  flash (EEPROM (fst (savePart sk i s))) =
  match lastSaved (snd (savePart sk i s)) with
  | Some b => b
  | None => flash (EEPROM s)
  end.
Proof.
  unfold savePart.
  destruct (usesEEPROM sk && elapsed (millisAtSaveCheck i) (timeOfLastSave s) 60000);
    reflexivity.
Qed.

Lemma loop_flash (sk : Sketch) (i : LoopInput) (s : State) :
  flash (EEPROM (fst (loop sk i s))) =
  match lastSaved (snd (loop sk i s)) with
  | Some b => b
  | None => flash (EEPROM s)
  end.
Proof.
  rewrite loop_parts. cbn [fst snd].
  destruct (buttonPart_frame sk i s) as (_ & _ & _ & Hb & Lb).
  destruct (tickPart_frame sk i (fst (buttonPart sk i s))) as (_ & _ & Ht & Lt).
  rewrite savePart_flash, !lastSaved_app, Lb, Lt, Ht, Hb.
  destruct (lastSaved (snd (savePart sk i _))); reflexivity.
Qed.

(** Clock arithmetic on [unsigned long]. *)
Lemma wrap_ulong_diff (t d : Z) :
  0 <= d < 2 ^ 32 -> wrap_ulong (wrap_ulong (t + d) - wrap_ulong t) = d.
Proof.
  intros Hd. unfold wrap_ulong.
  rewrite Zminus_mod_idemp_l, Zminus_mod_idemp_r.
  replace (t + d - t) with d by lia. apply Z.mod_small. exact Hd.
Qed.

End MoreFacts.
Import MoreFacts.

(** X1 (the clock may roll over).  [millis()] counts modulo 2^32; the test
    [millis() - last >= interval] of [loop] sees the true time that passed
    since [last] as long as it is below 2^32 ms, also across the rollover. *)
Theorem elapsed_across_rollover (t d interval : Z) :
  0 <= d < 2 ^ 32 ->
  elapsed (wrap_ulong (t + d)) (wrap_ulong t) interval = (interval <=? d).
Proof.
  intros Hd. unfold elapsed. rewrite wrap_ulong_diff by exact Hd. reflexivity.
Qed.

Lemma elapsed_across_rollover_witness :
  0 <= 1500 < 2 ^ 32 /\
  elapsed (wrap_ulong (4294967000 + 1500)) (wrap_ulong 4294967000) 1000 = true.
Proof.
  assert (H : 0 <= 1500 < 2 ^ 32) by (split; [lia|reflexivity]).
  split; [exact H|].
  exact (elapsed_across_rollover 4294967000 1500 1000 H).
Defined.

(** X2 (one tick per second).  After a pass of [loop] that ticked, a pass
    that reads the clock less than 1000 ms after the stamp of that tick does
    not tick: it reports nothing and leaves the remaining capacity as it is,
    whether the button is down or not. *)
Theorem no_second_tick_within_a_second
        (sk : Sketch) (s : State) (i1 i2 : LoopInput) (d : Z) :
  elapsed (millisAtCheck i1) (timeOfLastCheck s) 1000 = true ->
  0 <= d < 1000 ->
  millisAtCheck i2 = wrap_ulong (millisAtStamp i1 + d) ->
  batteryJuiceLeft (fst (loop sk i2 (fst (loop sk i1 s))))
  = batteryJuiceLeft (fst (loop sk i1 s)) /\
  (forall v a soc t, ~ In (Report v a soc t) (snd (loop sk i2 (fst (loop sk i1 s))))).
Proof.
  intros Hdue Hd Hclock.
  assert (Hstamp : timeOfLastCheck (fst (loop sk i1 s)) = wrap_ulong (millisAtStamp i1)).
  { rewrite loop_parts. cbn [fst].
    destruct (savePart_frame sk i1 (fst (tickPart sk i1 (fst (buttonPart sk i1 s)))))
      as (_ & _ & ->).
    unfold tickPart.
    destruct (buttonPart_frame sk i1 s) as (_ & -> & _).
    rewrite Hdue. reflexivity. }
  set (s1 := fst (loop sk i1 s)) in *.
  assert (Hno : tickPart sk i2 (fst (buttonPart sk i2 s1)) = (fst (buttonPart sk i2 s1), [])).
  { unfold tickPart. destruct (buttonPart_frame sk i2 s1) as (_ & -> & _).
    rewrite Hstamp, Hclock, elapsed_across_rollover by lia.
    destruct (Z.leb_spec 1000 d); [lia|reflexivity]. }
  rewrite (loop_parts sk i2 s1), Hno. cbn [fst snd app].
  split.
  - destruct (savePart_frame sk i2 (fst (buttonPart sk i2 s1))) as (_ & -> & _).
    apply buttonPart_frame.
  - intros v a soc t Hin. apply in_app_or in Hin as [Hin|Hin].
    + unfold buttonPart in Hin. destruct (buttonLow i2); cbn in Hin;
        [destruct Hin as [Hin|[]]; discriminate|contradiction].
    + unfold savePart in Hin.
      destruct (usesEEPROM sk && elapsed _ _ 60000); cbn in Hin;
        [destruct Hin as [Hin|[]]; discriminate|contradiction].
Qed.

Lemma no_second_tick_within_a_second_witness :
  elapsed (millisAtCheck (passAt 4000)) (timeOfLastCheck fullState) 1000 = true /\
  0 <= 999 < 1000 /\
  millisAtCheck (buttonPass 4999) = wrap_ulong (millisAtStamp (passAt 4000) + 999) /\
  batteryJuiceLeft (fst (loop SketchA (buttonPass 4999) (fst (loop SketchA (passAt 4000) fullState))))
  = batteryJuiceLeft (fst (loop SketchA (passAt 4000) fullState)).
Proof.
  assert (H1 : elapsed (millisAtCheck (passAt 4000)) (timeOfLastCheck fullState) 1000
               = true) by reflexivity.
  assert (H2 : 0 <= 999 < 1000) by lia.
  assert (H3 : millisAtCheck (buttonPass 4999)
               = wrap_ulong (millisAtStamp (passAt 4000) + 999)) by reflexivity.
  split; [exact H1|]. split; [exact H2|]. split; [exact H3|].
  exact (proj1 (no_second_tick_within_a_second SketchA fullState
                  (passAt 4000) (buttonPass 4999) 999 H1 H2 H3)).
Defined.

(** X3 (one save per minute).  After a pass of [loop] that saved, a pass
    that reads the clock less than 60000 ms after the stamp of that save
    does not save: the flash is not written again. *)
Theorem no_second_save_within_a_minute
        (sk : Sketch) (s : State) (i1 i2 : LoopInput) (d : Z) :
  usesEEPROM sk = true ->
  elapsed (millisAtSaveCheck i1) (timeOfLastSave s) 60000 = true ->
  0 <= d < 60000 ->
  millisAtSaveCheck i2 = wrap_ulong (millisAtSaveStamp i1 + d) ->
  lastSaved (snd (loop sk i2 (fst (loop sk i1 s)))) = None /\
  EEPROM (fst (loop sk i2 (fst (loop sk i1 s)))) = EEPROM (fst (loop sk i1 s)).
Proof.
  intros Hsk Hdue Hd Hclock.
  assert (Hstamp : timeOfLastSave (fst (loop sk i1 s)) = wrap_ulong (millisAtSaveStamp i1)).
  { rewrite loop_parts. cbn [fst]. unfold savePart.
    destruct (tickPart_frame sk i1 (fst (buttonPart sk i1 s))) as (_ & -> & _).
    destruct (buttonPart_frame sk i1 s) as (_ & _ & -> & _).
    rewrite Hsk, Hdue. reflexivity. }
  set (s1 := fst (loop sk i1 s)) in *.
  set (s2 := fst (tickPart sk i2 (fst (buttonPart sk i2 s1)))).
  assert (Hs2 : timeOfLastSave s2 = timeOfLastSave s1 /\ EEPROM s2 = EEPROM s1).
  { unfold s2.
    destruct (tickPart_frame sk i2 (fst (buttonPart sk i2 s1))) as (_ & -> & -> & _).
    destruct (buttonPart_frame sk i2 s1) as (_ & _ & -> & -> & _). auto. }
  destruct Hs2 as [Hts He].
  assert (Hno : savePart sk i2 s2 = (s2, [])).
  { unfold savePart. rewrite Hts, Hstamp, Hclock, elapsed_across_rollover by lia.
    destruct (Z.leb_spec 60000 d); [lia|]. rewrite andb_false_r. reflexivity. }
  rewrite (loop_parts sk i2 s1). fold s2. rewrite Hno. cbn [fst snd].
  split; [|exact He].
  rewrite !lastSaved_app. cbn [lastSaved].
  destruct (tickPart_frame sk i2 (fst (buttonPart sk i2 s1))) as (_ & _ & _ & ->).
  apply buttonPart_frame.
Qed.

Lemma no_second_save_within_a_minute_witness :
  usesEEPROM SketchA = true /\
  elapsed (millisAtSaveCheck (passAt 63000)) (timeOfLastSave fullState) 60000 = true /\
  0 <= 59999 < 60000 /\
  millisAtSaveCheck (passAt 122999) = wrap_ulong (millisAtSaveStamp (passAt 63000) + 59999) /\
  lastSaved (snd (loop SketchA (passAt 122999) (fst (loop SketchA (passAt 63000) fullState))))
  = None.
Proof.
  assert (H0 : usesEEPROM SketchA = true) by reflexivity.
  assert (H1 : elapsed (millisAtSaveCheck (passAt 63000)) (timeOfLastSave fullState) 60000
               = true) by reflexivity.
  assert (H2 : 0 <= 59999 < 60000) by lia.
  assert (H3 : millisAtSaveCheck (passAt 122999)
               = wrap_ulong (millisAtSaveStamp (passAt 63000) + 59999)) by reflexivity.
  split; [exact H0|]. split; [exact H1|]. split; [exact H2|]. split; [exact H3|].
  exact (proj1 (no_second_save_within_a_minute SketchA fullState
                  (passAt 63000) (passAt 122999) 59999 H0 H1 H2 H3)).
Defined.

(** X4 (only a save writes the flash).  Whatever the machine goes through --
    ticks, calibrations, a frozen start -- the flash holds the bytes of the
    last save emitted on the way, and what it held before if there was none.
    [SketchB], which never saves, never changes it. *)
Theorem flash_is_last_saved (sk : Sketch) (inputs : list LoopInput) (m : Machine) :
  flash (EEPROM (machineState (fst (run sk inputs m)))) =
    match lastSaved (snd (run sk inputs m)) with
    | Some b => b
    | None => flash (EEPROM (machineState m))
    end /\
  flash (EEPROM (machineState (fst (run SketchB inputs m))))
  = flash (EEPROM (machineState m)).
Proof.
  assert (G : forall sk' l m',
             flash (EEPROM (machineState (fst (run sk' l m')))) =
             match lastSaved (snd (run sk' l m')) with
             | Some b => b
             | None => flash (EEPROM (machineState m'))
             end).
  { intros sk' l. induction l as [|i rest IH]; intros m'; [reflexivity|].
    cbn [run]. destruct (step sk' i m') as [m1 o1] eqn:E1.
    specialize (IH m1). destruct (run sk' rest m1) as [m2 o2]. cbn [fst snd] in *.
    rewrite IH, lastSaved_app. destruct (lastSaved o2); [reflexivity|].
    destruct m' as [s|s]; cbn [step] in E1.
    - injection E1 as <- <-. reflexivity.
    - pose proof (loop_flash sk' i s) as Hl.
      destruct (loop sk' i s) as [s' o']. injection E1 as <- <-. exact Hl. }
  split; [apply G|].
  assert (N : forall l m', lastSaved (snd (run SketchB l m')) = None).
  { induction l as [|i rest IH]; intros m'; [reflexivity|].
    cbn [run]. destruct (step SketchB i m') as [m1 o1] eqn:E1.
    specialize (IH m1). destruct (run SketchB rest m1) as [m2 o2]. cbn [fst snd] in *.
    rewrite lastSaved_app, IH.
    destruct m' as [s|s]; cbn [step] in E1.
    - injection E1 as _ <-. reflexivity.
    - rewrite loop_parts in E1. injection E1 as _ <-.
      rewrite !lastSaved_app.
      destruct (tickPart_frame SketchB i (fst (buttonPart SketchB i s))) as (_ & _ & _ & ->).
      destruct (buttonPart_frame SketchB i s) as (_ & _ & _ & _ & ->).
      reflexivity. }
  rewrite G, N. reflexivity.
Qed.

(** X5 (what is reported and saved is the state the pass ends with).  In
    every pass of [loop] the percentage on the display is the one of the
    remaining capacity the pass ends with, and the bytes written to the
    EEPROM are those of that same capacity: the save comes after the tick. *)
Theorem pass_reports_and_saves_its_result (sk : Sketch) (i : LoopInput) (s : State) :
  (forall v a soc t,
      In (Report v a soc t) (snd (loop sk i s)) ->
      soc = stateOfCharge (batteryJuiceLeft (fst (loop sk i s)))) /\
  (forall b,
      In (Saved b) (snd (loop sk i s)) ->
      b = bytes_of_word (bits_of_float (batteryJuiceLeft (fst (loop sk i s))))).
Proof.
  rewrite loop_parts. cbn [fst snd].
  set (s1 := fst (buttonPart sk i s)).
  set (s2 := fst (tickPart sk i s1)).
  destruct (savePart_frame sk i s2) as (_ & Hj & _). rewrite Hj.
  split.
  - intros v a soc t Hin. apply in_app_or in Hin as [Hin|Hin].
    { unfold buttonPart in Hin. destruct (buttonLow i); cbn in Hin;
        [destruct Hin as [Hin|[]]; discriminate|contradiction]. }
    apply in_app_or in Hin as [Hin|Hin].
    + unfold s2, tickPart in *.
      destruct (elapsed (millisAtCheck i) (timeOfLastCheck s1) 1000);
        [|contradiction].
      cbn in Hin. destruct Hin as [Hin|[]]. injection Hin as _ _ <- _. reflexivity.
    + unfold savePart in Hin.
      destruct (usesEEPROM sk && elapsed _ _ 60000); cbn in Hin;
        [destruct Hin as [Hin|[]]; discriminate|contradiction].
  - intros b Hin. apply in_app_or in Hin as [Hin|Hin].
    { unfold buttonPart in Hin. destruct (buttonLow i); cbn in Hin;
        [destruct Hin as [Hin|[]]; discriminate|contradiction]. }
    apply in_app_or in Hin as [Hin|Hin].
    + unfold tickPart in Hin.
      destruct (elapsed (millisAtCheck i) (timeOfLastCheck s1) 1000); cbn in Hin;
        [destruct Hin as [Hin|[]]; discriminate|contradiction].
    + unfold savePart in Hin.
      destruct (usesEEPROM sk && elapsed _ _ 60000); cbn in Hin; [|contradiction].
      destruct Hin as [Hin|[]]. injection Hin as <-. reflexivity.
Qed.

Lemma pass_reports_and_saves_its_result_witness :
  In (Saved (232, 5, 65, 65)) (snd (loop SketchA (passAt 63000) fullState)) /\
  (232, 5, 65, 65)
  = bytes_of_word
      (bits_of_float (batteryJuiceLeft (fst (loop SketchA (passAt 63000) fullState)))).
Proof.
  assert (H : In (Saved (232, 5, 65, 65)) (snd (loop SketchA (passAt 63000) fullState)))
    by (vm_compute; right; left; reflexivity).
  split; [exact H|].
  exact (proj2 (pass_reports_and_saves_its_result SketchA (passAt 63000) fullState)
           (232, 5, 65, 65) H).
Defined.

(** X6 (any flash content is handled).  Whatever four bytes the flash holds,
    and whether the display starts or not, [setup] ends with a remaining
    capacity that is a number between empty and full and a zero point that
    is not NaN, and it has not written the flash. *)
Theorem setup_handles_any_flash (sk : Sketch) (i : SetupInput) :
  valid32 (batteryJuiceLeft (machineState (fst (setup sk i)))) /\
  in_range (batteryJuiceLeft (machineState (fst (setup sk i)))) /\
  noLoadVoltage (machineState (fst (setup sk i))) <> S754_nan /\
  flash (EEPROM (machineState (fst (setup sk i)))) = flashContent i /\
  lastSaved (snd (setup sk i)) = None.
Proof.
  destruct (setup_ok sk i) as (Hv & Hr & Hn).
  split; [exact Hv|]. split; [exact Hr|]. split; [exact Hn|].
  unfold setup. destruct (displayBegins i); split; reflexivity.
Qed.

(** ** Ranges of the sensor values *)

Module RangeFacts.

(** The value of [ESP32_VOLTAGE]. *)
Local Abbreviation VREF := (Qval 13841203 (-22)).

Ltac repr_at m e :=
  exists m, e; split; [reflexivity|]; split; [reflexivity|];
  split; [discriminate|]; apply Qeq_bool_iff; vm_compute; reflexivity.

Lemma repr64_4095 : repr dprec demax 4095.
Proof. repr_at 9005000231485440 (-41). Qed.
Lemma repr64_vref : repr dprec demax VREF.
Proof. repr_at 7430939277787136 (-51). Qed.
Lemma repr32_vref : repr fprec femax VREF.
Proof. repr_at 13841203 (-22). Qed.
Lemma repr32_18 : repr fprec femax 18.
Proof. repr_at 9437184 (-19). Qed.

Lemma fin_le_fle (x : float) (mB : positive) (eB : Z) :
  valid32 x -> valid32 (S754_finite false mB eB) ->
  fin_le (Qval (Zpos mB) eB) false x ->
  fle fzero x = true /\ fle x (S754_finite false mB eB) = true.
Proof.
  intros Hx HB [->|(p & e & -> & Hle)]; [split; reflexivity|].
  split; [reflexivity|]. apply (SFleb_Qval fprec femax); assumption.
Qed.

Lemma fle_fin_le (x : float) (mB : positive) (eB : Z) :
  valid32 x -> valid32 (S754_finite false mB eB) ->
  fle fzero x = true -> fle x (S754_finite false mB eB) = true ->
  exists s, fin_le (Qval (Zpos mB) eB) s x.
Proof.
  intros Hx HB H0 H1. unfold fle, SFleb in H0.
  destruct x as [s|s| |s m e].
  - exists s. left. reflexivity.
  - destruct s; [discriminate H0|discriminate H1].
  - discriminate H0.
  - destruct s; [discriminate H0|]. exists false. right. exists m, e.
    split; [reflexivity|]. apply (SFleb_Qval fprec femax); assumption.
Qed.

(** A 12-bit count converts to a voltage between 0 and the reference. *)
Lemma adc_to_volts_range (raw : Z) :
  0 <= raw <= 4095 ->
  valid32 (adc_to_volts raw) /\ fin_le VREF false (adc_to_volts raw).
Proof.
  intros Hraw. unfold adc_to_volts, float_of_double.
  split; [apply convert_valid; exact fprec_pos|].
  apply convert_fin_le; [exact fprec_pos|exact repr32_vref|].
  unfold dmul, ddiv, double_of_int, ADC_MAX.
  change false with (xorb (xorb false false) false).
  apply (SFmul_fin_le dprec demax dprec_pos dprec_emax 1 VREF).
  - apply SFdiv_valid. exact dprec_pos.
  - reflexivity.
  - apply (SFdiv_fin_le dprec demax dprec_pos 4095).
    + assert (H0 : fin_le 4095 (raw <? 0) (binary_normalize dprec demax raw 0 false)).
      { apply binary_normalize_fin_le; [exact dprec_pos|exact repr64_4095|].
        unfold Qval. change (2 ^ 0)%Q with 1%Q. rewrite Qmult_1_r.
        change 4095%Q with (inject_Z 4095). rewrite <- Zle_Qle. lia. }
      replace (raw <? 0) with false in H0 by (symmetry; apply Z.ltb_ge; lia).
      exact H0.
    + apply Qle_bool_iff. vm_compute. reflexivity.
    + exact repr64_1.
  - right. eexists _, _.
    split; [vm_compute; reflexivity|apply Qle_bool_iff; vm_compute; reflexivity].
  - discriminate.
  - rewrite Qmult_1_l. apply Qle_refl.
  - exact repr64_vref.
Qed.

Lemma adc_to_volts_pinVoltsOK (raw : Z) :
  0 <= raw <= 4095 -> pinVoltsOK (adc_to_volts raw).
Proof.
  intros Hraw. destruct (adc_to_volts_range raw Hraw) as [Hv Hf].
  split; [exact Hv|]. apply (fin_le_fle _ 13841203 (-22)); [exact Hv|reflexivity|exact Hf].
Qed.

Lemma average_adc12 (read : nat -> Z) (n : nat) :
  (0 < n <= 1000)%nat -> adc12 read -> 0 <= average read n <= 4095.
Proof.
  intros Hn Hr. apply average_quotient; [exact Hn|]. intros i _. apply Hr.
Qed.

Lemma readVoltage_range (raw : Z) :
  0 <= raw <= 4095 ->
  fle fzero (readVoltage raw) = true /\ fle (readVoltage raw) (float_of_int 18) = true.
Proof.
  intros Hraw. destruct (adc_to_volts_range raw Hraw) as [Hv Hf].
  assert (Hm : fin_le 18 false (readVoltage raw)).
  { unfold readVoltage, fmul, VOLTAGE_CORRECTION.
    change false with (xorb false false).
    apply (SFmul_fin_le fprec femax fprec_pos fprec_emax VREF (Qval 11372855 (-21)));
      try assumption.
    - reflexivity.
    - right. eexists _, _. split; [reflexivity|apply Qle_refl].
    - apply Qle_bool_iff. vm_compute. reflexivity.
    - apply Qle_bool_iff. vm_compute. reflexivity.
    - exact repr32_18. }
  assert (Hvv : valid32 (readVoltage raw)).
  { unfold readVoltage, fmul. apply SFmul_valid;
      [exact fprec_pos|exact fprec_emax|exact Hv|reflexivity]. }
  change (float_of_int 18) with (S754_finite false 9437184 (-19)).
  apply fin_le_fle; [exact Hvv|reflexivity|].
  eapply fin_le_weaken; [|exact Hm]. apply Qle_bool_iff. vm_compute. reflexivity.
Qed.

(** The difference of two numbers between 0 and [B] has magnitude at most [B]. *)
Lemma fsub_fin_le (B : Q) (x y : float) :
  repr fprec femax B -> fin_le B false x -> fin_le B false y ->
  exists s, fin_le B s (fsub x y).
Proof.
  intros HB [->|(mx & ex & -> & Hx)] [->|(my & ey & -> & Hy)].
  - exists false. left. reflexivity.
  - exists true. right. exists my, ey. auto.
  - exists false. right. exists mx, ex. auto.
  - unfold fsub. cbn [SFsub cond_Zopp].
    set (ez := Z.min ex ey).
    pose proof (shl_align_spec mx ex ez) as [Hmx _].
    pose proof (shl_align_spec my ey ez) as [Hmy _].
    cbv zeta in Hmx, Hmy.
    replace (Z.max (ex - ez) 0) with (ex - ez) in Hmx by (unfold ez; lia).
    replace (Z.max (ey - ez) 0) with (ey - ez) in Hmy by (unfold ez; lia).
    set (a := Zpos (fst (shl_align mx ex ez))) in *.
    set (b := Zpos (fst (shl_align my ey ez))) in *.
    assert (Ha : (Qval a ez == Qval (Zpos mx) ex)%Q).
    { rewrite Hmx, Qval_scale by (unfold ez; lia).
      replace (ez + (ex - ez)) with ex by lia. reflexivity. }
    assert (Hb : (Qval b ez == Qval (Zpos my) ey)%Q).
    { rewrite Hmy, Qval_scale by (unfold ez; lia).
      replace (ez + (ey - ez)) with ey by lia. reflexivity. }
    exists (a - b <? 0).
    apply binary_normalize_fin_le; [exact fprec_pos|exact HB|].
    assert (0 < a) by (unfold a; lia). assert (0 < b) by (unfold b; lia).
    destruct (Z_le_gt_dec b a).
    + eapply Qle_trans; [|exact Hx]. rewrite <- Ha. apply Qval_le. lia.
    + eapply Qle_trans; [|exact Hy]. rewrite <- Hb. apply Qval_le. lia.
Qed.

(** The current computed from two pin voltages is at most 18 A either way. *)
Lemma computeAmps_range (noLoad csv : float) :
  pinVoltsOK noLoad -> pinVoltsOK csv ->
  valid32 (computeAmps noLoad csv) /\
  exists s, fin_le 18 s (computeAmps noLoad csv).
Proof.
  intros (Hv1 & H10 & H11) (Hv2 & H20 & H21).
  split; [apply SFdiv_valid; exact fprec_pos|].
  assert (F : forall x, valid32 x -> fle fzero x = true -> fle x ESP32_VOLTAGE = true ->
                        x = S754_zero true \/ fin_le VREF false x).
  { intros x Hx H0 H1.
    destruct (fle_fin_le x 13841203 (-22) Hx eq_refl H0 H1) as [[] Hf].
    - destruct Hf as [->|(p & e & -> & _)]; [left; reflexivity|].
      discriminate H0.
    - right. exact Hf. }
  assert (G : exists s, fin_le VREF s (fsub noLoad csv)).
  { destruct (F noLoad Hv1 H10 H11) as [->|F1]; destruct (F csv Hv2 H20 H21) as [->|F2].
    - exists false. left. reflexivity.
    - destruct F2 as [->|(p & e & -> & Hp)].
      + exists true. left. reflexivity.
      + exists true. right. exists p, e. auto.
    - destruct F1 as [->|(p & e & -> & Hp)].
      + exists false. left. reflexivity.
      + exists false. right. exists p, e. auto.
    - apply fsub_fin_le; [exact repr32_vref|exact F1|exact F2]. }
  destruct G as [s G]. exists (xorb s false).
  unfold computeAmps, fdiv, CURRENT_SENSITIVITY.
  apply (SFdiv_fin_le fprec femax fprec_pos VREF); [exact G| |exact repr32_18].
  apply Qle_bool_iff. vm_compute. reflexivity.
Qed.

Lemma fabs_le_18 (a : float) :
  valid32 a -> (exists s, fin_le 18 s a) -> fle (fabs a) (float_of_int 18) = true.
Proof.
  intros Hv [s [->|(p & e & -> & Hle)]]; [reflexivity|].
  change (float_of_int 18) with (S754_finite false 9437184 (-19)).
  cbn [fabs SFabs]. apply (SFleb_Qval fprec femax); [exact Hv|reflexivity|].
  eapply Qle_trans; [exact Hle|]. apply Qle_bool_iff. vm_compute. reflexivity.
Qed.

Lemma deadZone_le_18 (sk : Sketch) (a : float) :
  fle (fabs a) (float_of_int 18) = true ->
  fle (fabs (deadZone sk a)) (float_of_int 18) = true.
Proof.
  intros H. unfold deadZone.
  destruct (deadZoneEnabled sk && flt (fabs a) (CURRENT_NOISE_THRESHOLD sk));
    [reflexivity|exact H].
Qed.

End RangeFacts.
Import RangeFacts.

Module DriftFacts.

Lemma computeAmps_same (v : float) :
  v <> S754_nan -> (forall s, v <> S754_infinity s) -> computeAmps v v = fzero.
Proof.
  intros Hn Hi. destruct v as [s|s| |s m e].
  - destruct s; reflexivity.
  - exfalso. apply (Hi s). reflexivity.
  - congruence.
  - unfold computeAmps, fsub. cbn [SFsub]. rewrite Z.sub_diag. reflexivity.
Qed.

Lemma deadZone_fzero (sk : Sketch) : deadZone sk fzero = fzero.
Proof. destruct sk; reflexivity. Qed.

(** A tick whose current is zero leaves a capacity in the range as it is. *)
Lemma tick_zero_amps (sk : Sketch) (now : Z) (x : Sensors) (s : State) :
  in_range (batteryJuiceLeft s) ->
  deadZone sk (computeAmps (noLoadVoltage s)
                 (readAveragedCurrentVoltage sk (currentSamples x))) = fzero ->
  batteryJuiceLeft (fst (tick sk now x s)) = batteryJuiceLeft s.
Proof.
  intros Hr Hz. rewrite tick_juice, Hz.
  replace (fmul fzero (timePassedInHours sk)) with fzero by (destruct sk; reflexivity).
  replace (fsub (batteryJuiceLeft s) fzero) with (batteryJuiceLeft s).
  - apply clampJuice_id. exact Hr.
  - destruct (in_range_cases _ Hr) as [[z ->]|(m & e & ->)]; [destruct z|]; reflexivity.
Qed.

Lemma tick_amps (sk : Sketch) (now : Z) (x : Sensors) (s : State) :
  forall v a soc t, In (Report v a soc t) (snd (tick sk now x s)) ->
  v = readVoltage (rawVoltageReading x) /\
  a = deadZone sk (computeAmps (noLoadVoltage s)
                     (readAveragedCurrentVoltage sk (currentSamples x))).
Proof.
  intros v a soc t Hin. cbn in Hin. destruct Hin as [Hin|[]].
  injection Hin as <- <- _ _. split; reflexivity.
Qed.

Lemma loop_displayOK (sk : Sketch) (i : LoopInput) (s : State) :
  pinVoltsOK (noLoadVoltage s) -> inputOK i ->
  pinVoltsOK (noLoadVoltage (fst (loop sk i s))) /\
  Forall displayOK (snd (loop sk i s)).
Proof.
  intros Hs (Hc & Hx & Hraw). rewrite loop_parts. cbn [fst snd].
  set (s1 := fst (buttonPart sk i s)).
  assert (H1 : pinVoltsOK (noLoadVoltage s1) /\ Forall displayOK (snd (buttonPart sk i s))).
  { unfold s1, buttonPart. destruct (buttonLow i); cbn.
    - split; [|repeat constructor].
      apply adc_to_volts_pinVoltsOK, average_adc12;
        [apply CALIBRATION_SAMPLES_bounds|exact Hc].
    - split; [exact Hs|constructor]. }
  destruct H1 as [Hs1 Ho1].
  set (s2 := fst (tickPart sk i s1)).
  destruct (tickPart_frame sk i s1) as (Hn2 & _).
  destruct (savePart_frame sk i s2) as (Hn3 & _).
  split; [rewrite Hn3; unfold s2; rewrite Hn2; exact Hs1|].
  apply Forall_app. split; [exact Ho1|]. apply Forall_app. split.
  - unfold tickPart. destruct (elapsed (millisAtCheck i) (timeOfLastCheck s1) 1000);
      [|constructor].
    apply Forall_forall. intros [z|v a soc t|b] Hin; try exact I.
    destruct (tick_amps _ _ _ _ _ _ _ _ Hin) as [-> ->]. cbn [displayOK].
    destruct (readVoltage_range _ Hraw) as [Hv0 Hv1].
    split; [exact Hv0|]. split; [exact Hv1|].
    apply deadZone_le_18.
    assert (Hcsv : pinVoltsOK (readAveragedCurrentVoltage sk (currentSamples (sensors i)))).
    { apply adc_to_volts_pinVoltsOK, average_adc12;
        [apply SAMPLES_TO_AVERAGE_bounds|exact Hx]. }
    destruct (computeAmps_range _ _ Hs1 Hcsv) as [Hva Hfa].
    apply fabs_le_18; assumption.
  - unfold savePart.
    destruct (usesEEPROM sk && elapsed _ _ 60000); repeat constructor.
Qed.

End DriftFacts.
Import DriftFacts.

(** X7 (the zero point is a pin voltage).  A 12-bit count converts to a
    voltage between 0 and the reference voltage, so a calibration from
    12-bit samples leaves a zero point in that range. *)
Theorem calibration_in_pin_range (sk : Sketch) (read : nat -> Z) (s : State) :
  adc12 read ->
  pinVoltsOK (noLoadVoltage (fst (zeroOutCurrentSensor sk read s))) /\
  (forall raw, 0 <= raw <= 4095 -> pinVoltsOK (adc_to_volts raw)).
Proof.
  intros Hr. split; [|exact adc_to_volts_pinVoltsOK].
  cbn [zeroOutCurrentSensor fst noLoadVoltage].
  apply adc_to_volts_pinVoltsOK, average_adc12;
    [apply CALIBRATION_SAMPLES_bounds|exact Hr].
Qed.

Lemma calibration_in_pin_range_witness :
  adc12 flicker /\
  pinVoltsOK (noLoadVoltage (fst (zeroOutCurrentSensor SketchB flicker fullState))).
Proof.
  assert (H : adc12 flicker).
  { intros i. unfold flicker. destruct (Nat.even i); lia. }
  split; [exact H|].
  exact (proj1 (calibration_in_pin_range SketchB flicker fullState H)).
Defined.

(** X8 (the average lies among the samples).  With up to 1000 samples of
    the 12-bit ADC the 32-bit sum does not wrap, and the [int] average is
    no smaller than the smallest sample and no larger than the largest. *)
Theorem average_between_samples (read : nat -> Z) (n : nat) (lo hi : Z) :
  (0 < n <= 1000)%nat -> 0 <= lo -> hi <= 4095 ->
  (forall i, (i < n)%nat -> lo <= read i <= hi) ->
  sum_samples read n = Spec.total read n /\ lo <= average read n <= hi.
Proof.
  intros Hn Hlo Hhi Hread.
  assert (H12 : forall i, (i < n)%nat -> 0 <= read i <= 4095).
  { intros i Hi. specialize (Hread i Hi). lia. }
  split; [apply sum_samples_total; [lia|exact H12]|].
  destruct (average_quotient read n Hn H12) as [-> _].
  assert (Ht : Z.of_nat n * lo <= Spec.total read n <= Z.of_nat n * hi).
  { clear Hn H12. induction n as [|k IH]; cbn [Spec.total]; [lia|].
    pose proof (IH (fun i Hi => Hread i (Nat.lt_lt_succ_r _ _ Hi))).
    pose proof (Hread k (Nat.lt_succ_diag_r k)). lia. }
  split.
  - apply Z.div_le_lower_bound; lia.
  - apply Z.div_le_upper_bound; lia.
Qed.

Lemma average_between_samples_witness :
  (0 < 200 <= 1000)%nat /\ 0 <= 2047 /\ 2048 <= 4095 /\
  (forall i, (i < 200)%nat -> 2047 <= flicker i <= 2048) /\
  2047 <= average flicker 200 <= 2048.
Proof.
  assert (H1 : (0 < 200 <= 1000)%nat) by lia.
  assert (H2 : 0 <= 2047) by lia.
  assert (H3 : 2048 <= 4095) by lia.
  assert (H4 : forall i, (i < 200)%nat -> 2047 <= flicker i <= 2048).
  { intros i _. unfold flicker. destruct (Nat.even i); lia. }
  split; [exact H1|]. split; [exact H2|]. split; [exact H3|]. split; [exact H4|].
  exact (proj2 (average_between_samples flicker 200 2047 2048 H1 H2 H3 H4)).
Defined.

(** X9 (what the display shows is bounded).  From a state whose zero point
    is a pin voltage, as long as the ADC delivers 12-bit counts, every
    report shows a battery voltage between 0 and 18 V and a current between
    -18 and 18 A, and the zero point stays a pin voltage. *)
Theorem displayed_values_in_range (sk : Sketch) (inputs : list LoopInput) (s : State) :
  pinVoltsOK (noLoadVoltage s) -> Forall inputOK inputs ->
  pinVoltsOK (noLoadVoltage (machineState (fst (run sk inputs (Running s))))) /\
  Forall displayOK (snd (run sk inputs (Running s))).
Proof.
  revert s. induction inputs as [|i rest IH]; intros s Hs Hin.
  - cbn. split; [exact Hs|constructor].
  - inversion Hin as [|? ? Hi Hrest]; subst.
    cbn [run step].
    destruct (loop_displayOK sk i s Hs Hi) as [Hs1 Ho1].
    destruct (loop sk i s) as [s1 o1]. cbn [fst snd] in Hs1, Ho1.
    destruct (IH s1 Hs1 Hrest) as [Hs2 Ho2].
    destruct (run sk rest (Running s1)) as [m2 o2]. cbn [fst snd] in *.
    split; [exact Hs2|]. apply Forall_app. split; assumption.
Qed.

Lemma displayed_values_in_range_witness :
  pinVoltsOK (noLoadVoltage fullState) /\
  Forall inputOK [passAt 4000; buttonPass 5000] /\
  Forall displayOK (snd (run SketchA [passAt 4000; buttonPass 5000] (Running fullState))).
Proof.
  assert (H1 : pinVoltsOK (noLoadVoltage fullState))
    by (split; [|split]; vm_compute; reflexivity).
  assert (H2 : Forall inputOK [passAt 4000; buttonPass 5000]).
  { repeat constructor; try (intros i; cbn; lia); cbn; lia. }
  split; [exact H1|]. split; [exact H2|].
  exact (proj2 (displayed_values_in_range SketchA [passAt 4000; buttonPass 5000]
                  fullState H1 H2)).
Defined.

(** X10 (no drift at zero load).  When the averaged sensor voltage of a tick
    equals the zero point, the computed current is [+0] and the tick leaves
    a remaining capacity between empty and full exactly as it was. *)
Theorem no_drift_at_zero_load (sk : Sketch) (now : Z) (x : Sensors) (s : State) :
  in_range (batteryJuiceLeft s) ->
  readAveragedCurrentVoltage sk (currentSamples x) = noLoadVoltage s ->
  batteryJuiceLeft (fst (tick sk now x s)) = batteryJuiceLeft s /\
  (forall v a soc t, In (Report v a soc t) (snd (tick sk now x s)) -> a = fzero).
Proof.
  intros Hr Heq.
  assert (Hz : deadZone sk (computeAmps (noLoadVoltage s)
                  (readAveragedCurrentVoltage sk (currentSamples x))) = fzero).
  { rewrite Heq.
    destruct (sampled_volts_ok (currentSamples x) (SAMPLES_TO_AVERAGE sk))
      as (_ & Hn & Hi).
    fold (readAveragedCurrentVoltage sk (currentSamples x)) in Hn, Hi.
    rewrite Heq in Hn, Hi.
    rewrite (computeAmps_same _ Hn Hi). apply deadZone_fzero. }
  split; [apply tick_zero_amps; assumption|].
  intros v a soc t Hin. destruct (tick_amps _ _ _ _ _ _ _ _ Hin) as [_ ->]. exact Hz.
Qed.

Lemma no_drift_at_zero_load_witness :
  in_range (batteryJuiceLeft halfState) /\
  readAveragedCurrentVoltage SketchB (currentSamples (sensorsAt 2048))
  = noLoadVoltage halfState /\
  batteryJuiceLeft (fst (tick SketchB 4000 (sensorsAt 2048) halfState))
  = batteryJuiceLeft halfState.
Proof.
  assert (H1 : in_range (batteryJuiceLeft halfState)) by (split; vm_compute; reflexivity).
  assert (H2 : readAveragedCurrentVoltage SketchB (currentSamples (sensorsAt 2048))
               = noLoadVoltage halfState) by (vm_compute; reflexivity).
  split; [exact H1|]. split; [exact H2|].
  exact (proj1 (no_drift_at_zero_load SketchB 4000 (sensorsAt 2048) halfState H1 H2)).
Defined.

(** X11 (the dead zone holds the charge).  Where the filter is on, a tick
    whose computed current is below the threshold in absolute value reports
    [+0] A and leaves a remaining capacity between empty and full exactly as
    it was. *)
Theorem dead_zone_holds_the_charge (sk : Sketch) (now : Z) (x : Sensors) (s : State) :
  deadZoneEnabled sk = true ->
  in_range (batteryJuiceLeft s) ->
  flt (fabs (computeAmps (noLoadVoltage s)
               (readAveragedCurrentVoltage sk (currentSamples x))))
      (CURRENT_NOISE_THRESHOLD sk) = true ->
  batteryJuiceLeft (fst (tick sk now x s)) = batteryJuiceLeft s /\
  (forall v a soc t, In (Report v a soc t) (snd (tick sk now x s)) -> a = fzero).
Proof.
  intros Hon Hr Hsmall.
  assert (Hz : deadZone sk (computeAmps (noLoadVoltage s)
                  (readAveragedCurrentVoltage sk (currentSamples x))) = fzero).
  { unfold deadZone. rewrite Hon, Hsmall. reflexivity. }
  split; [apply tick_zero_amps; assumption|].
  intros v a soc t Hin. destruct (tick_amps _ _ _ _ _ _ _ _ Hin) as [_ ->]. exact Hz.
Qed.

Lemma dead_zone_holds_the_charge_witness :
  deadZoneEnabled SketchA = true /\
  in_range (batteryJuiceLeft halfState) /\
  flt (fabs (computeAmps (noLoadVoltage halfState)
               (readAveragedCurrentVoltage SketchA (currentSamples (sensorsAt 2040)))))
      (CURRENT_NOISE_THRESHOLD SketchA) = true /\
  batteryJuiceLeft (fst (tick SketchA 4000 (sensorsAt 2040) halfState))
  = batteryJuiceLeft halfState.
Proof.
  assert (H0 : deadZoneEnabled SketchA = true) by reflexivity.
  assert (H1 : in_range (batteryJuiceLeft halfState)) by (split; vm_compute; reflexivity).
  assert (H2 : flt (fabs (computeAmps (noLoadVoltage halfState)
               (readAveragedCurrentVoltage SketchA (currentSamples (sensorsAt 2040)))))
      (CURRENT_NOISE_THRESHOLD SketchA) = true) by (vm_compute; reflexivity).
  split; [exact H0|]. split; [exact H1|]. split; [exact H2|].
  exact (proj1 (dead_zone_holds_the_charge SketchA 4000 (sensorsAt 2040) halfState
                  H0 H1 H2)).
Defined.

(** ** Rounding does not fall below a representable bound *)

Module FloatLower.

Section Format.

Variables prec emax : Z.
Hypothesis Hprec : 0 < prec.
Hypothesis Hemax : prec < emax.

Local Abbreviation fexp := (SpecFloat.fexp prec emax).
Local Abbreviation canon := (FloatDefs.canon prec emax).

Lemma shr_fexp_div (m e : Z) (l : location) :
  0 <= m -> e <= fexp (Zdigits2 m + e) ->
  forall mrs e', shr_fexp prec emax m e l = (mrs, e') ->
  e' = fexp (Zdigits2 m + e) /\ shr_m mrs = m / 2 ^ (e' - e).
Proof.
  intros Hm He mrs e' Heq. unfold shr_fexp in Heq.
  set (n := fexp (Zdigits2 m + e) - e) in *.
  assert (Hx : 0 <= shr_m (shr_record_of_loc m l))
    by (rewrite shr_record_of_loc_m; exact Hm).
  destruct (shr_shifted (shr_record_of_loc m l) e n Hx) as [Hs He'].
  rewrite Heq in Hs, He'. cbn [fst snd] in Hs, He'.
  replace (Z.max n 0) with n in * by lia.
  destruct Hs as (_ & Hdiv & _). rewrite shr_record_of_loc_m in Hdiv.
  split; [lia|]. replace (e' - e) with n by lia. exact Hdiv.
Qed.

Local Open Scope Q_scope.

Lemma shr_fexp_lower (m e : Z) (l : location) (mB eB : Z) :
  (0 < m)%Z -> (e <= fexp (Zdigits2 m + e))%Z ->
  (0 < mB)%Z -> canon mB eB -> Qval mB eB <= Qval m e ->
  forall mrs e', shr_fexp prec emax m e l = (mrs, e') ->
  Qval mB eB <= Qval (shr_m mrs) e'.
Proof.
  intros Hm He HmB HcB Hle mrs e' Heq.
  destruct (shr_fexp_div m e l ltac:(lia) He mrs e' Heq) as [He' Hdiv].
  pose proof (Qval_le_magnitude mB eB m e HmB Hm Hle) as Hmag.
  assert (HeB : (eB <= e')%Z).
  { unfold FloatDefs.canon in HcB. rewrite <- HcB, He'. apply fexp_le. exact Hmag. }
  assert (Hn : (0 <= e' - e)%Z) by lia.
  assert (Hp : (0 < 2 ^ (e' - e))%Z) by (apply Z.pow_pos_nonneg; lia).
  destruct (Z.eq_dec eB e') as [Heq'|Hne].
  - subst eB. rewrite Hdiv. apply Qval_le.
    apply Z.div_le_lower_bound; [exact Hp|].
    replace e' with (e + (e' - e))%Z in Hle at 1 by lia.
    rewrite <- Qval_scale in Hle by lia. apply Qval_le_inv in Hle. lia.
  - assert (Hemin : (SpecFloat.emin prec emax <= eB)%Z).
    { unfold FloatDefs.canon in HcB. rewrite <- HcB. apply emin_le_fexp. }
    assert (He'' : (e' = Zdigits2 m + e - prec)%Z).
    { unfold SpecFloat.fexp in He'. lia. }
    destruct (Zdigits2_div_pow2 m (e' - e) Hm Hn ltac:(lia)) as [Hd Hpos].
    rewrite <- Hdiv in Hd, Hpos.
    pose proof (Qval_digits (shr_m mrs) e' Hpos) as [Hlo _].
    pose proof (Qval_digits mB eB HmB) as [_ Hhi].
    apply Qlt_le_weak. eapply Qlt_le_trans; [exact Hhi|].
    eapply Qle_trans; [|exact Hlo].
    apply Qpower_le_compat_l; [|discriminate].
    pose proof (Zdigits2_pos mB HmB).
    unfold FloatDefs.canon, SpecFloat.fexp in HcB. lia.
Qed.

(** Rounding a value that is at least a number of the format gives at least
    that number (or overflows). *)
Lemma binary_round_aux_lower (sx : bool) (m e : Z) (l : location) (mB eB : Z) :
  (0 < m)%Z -> (e <= fexp (Zdigits2 m + e))%Z ->
  (0 < mB)%Z -> canon mB eB -> Qval mB eB <= Qval m e ->
  binary_round_aux prec emax sx m e l = S754_infinity sx \/
  exists p e', binary_round_aux prec emax sx m e l = S754_finite sx p e' /\
               Qval mB eB <= Qval (Zpos p) e'.
Proof.
  intros Hm He HmB HcB Hle. unfold binary_round_aux.
  destruct (shr_fexp prec emax m e l) as [mrs1 e1] eqn:E1.
  destruct (shr_fexp_spec prec emax Hprec m e l ltac:(lia) He _ _ E1)
    as (He1 & Hm1 & _ & Hc1 & _).
  pose proof (shr_fexp_lower m e l mB eB Hm He HmB HcB Hle _ _ E1) as Hl1.
  set (mr := round_nearest_even (shr_m mrs1) (loc_of_shr_record mrs1)).
  assert (Hmr : mr = shr_m mrs1 \/ (mr = (shr_m mrs1 + 1)%Z /\ inexact mrs1 = true))
    by apply round_nearest_even_cases.
  assert (Hm1pos : (0 < shr_m mrs1)%Z).
  { destruct (Z.eq_dec (shr_m mrs1) 0) as [E0|]; [|lia].
    rewrite E0 in Hl1. pose proof (Qval_pos mB eB HmB) as HB.
    unfold Qval in Hl1 at 2. rewrite Qmult_0_l in Hl1.
    exfalso. eapply Qlt_not_le; eassumption. }
  assert (Hmrpos : (0 < mr)%Z) by lia.
  assert (Hlr : Qval mB eB <= Qval mr e1).
  { eapply Qle_trans; [exact Hl1|]. apply Qval_le. lia. }
  assert (Hed : (e1 <= fexp (Zdigits2 mr + e1))%Z).
  { unfold FloatDefs.canon in Hc1. rewrite <- Hc1 at 1. apply fexp_le.
    pose proof (Zdigits2_le (shr_m mrs1) mr). lia. }
  destruct (shr_fexp prec emax mr e1 loc_Exact) as [mrs2 e2] eqn:E2.
  pose proof (shr_fexp_lower mr e1 loc_Exact mB eB Hmrpos Hed HmB HcB Hlr _ _ E2) as Hl2.
  destruct (shr_m mrs2) as [|p|p] eqn:E3.
  - pose proof (Qval_pos mB eB HmB) as HB.
    unfold Qval in Hl2 at 2. rewrite Qmult_0_l in Hl2.
    exfalso. eapply Qlt_not_le; eassumption.
  - destruct (e2 <=? emax - prec)%Z; [right; exists p, e2; auto|left; reflexivity].
  - exfalso. pose proof (Qval_pos mB eB HmB) as HB.
    assert (Qval (Zneg p) e2 <= Qval 0 e2) by (apply Qval_le; lia).
    unfold Qval in H at 2. rewrite Qmult_0_l in H.
    eapply Qlt_not_le; [exact HB|]. eapply Qle_trans; eassumption.
Qed.

Lemma binary_round_lower (sx : bool) (mx : positive) (ex : Z) (mB eB : Z) :
  (0 < mB)%Z -> canon mB eB -> Qval mB eB <= Qval (Zpos mx) ex ->
  binary_round prec emax sx mx ex = S754_infinity sx \/
  exists p e', binary_round prec emax sx mx ex = S754_finite sx p e' /\
               Qval mB eB <= Qval (Zpos p) e'.
Proof.
  intros HmB HcB Hle. unfold binary_round.
  pose proof (shl_align_spec mx ex (fexp (Zpos (digits2_pos mx) + ex))) as Hs.
  destruct (shl_align mx ex (fexp (Zpos (digits2_pos mx) + ex))) as [mz ez].
  cbn [fst snd] in Hs. cbv zeta in Hs. destruct Hs as [Hmz Hez].
  set (k := Z.max (ex - fexp (Zpos (digits2_pos mx) + ex)) 0) in *.
  assert (Hk : (0 <= k)%Z) by lia.
  assert (Hd : (Zdigits2 (Zpos mz) + ez = Zpos (digits2_pos mx) + ex)%Z).
  { rewrite Hmz, Zdigits2_mul_pow2 by lia. cbn [Zdigits2]. lia. }
  assert (He : (ez <= fexp (Zdigits2 (Zpos mz) + ez))%Z) by (rewrite Hd; lia).
  apply binary_round_aux_lower; try assumption; [lia|].
  rewrite Hmz, Qval_scale by lia. replace (ez + k)%Z with ex by lia. exact Hle.
Qed.

Local Close Scope Q_scope.

End Format.

End FloatLower.
Import FloatLower.

Module ChargeFacts.

Lemma fle_zero_sign (s : bool) (y : float) : fle (S754_zero s) y = fle fzero y.
Proof. destruct y; reflexivity. Qed.

(** Subtracting a negative amount never gives less than there was. *)
Lemma charge_ge (j used : float) :
  valid32 j -> in_range j -> valid32 used -> signed true used ->
  fle j (clampJuice (fsub j used)) = true.
Proof.
  intros Hv Hr Hvu Hu.
  assert (HF : fle j BATTERY_FULL_CAPACITY = true) by apply Hr.
  destruct (in_range_cases j Hr) as [[s ->]|(m & e & ->)].
  - destruct Hu as [->|[->|(p & e' & ->)]]; try (destruct s; reflexivity).
    rewrite fle_zero_sign. apply clampJuice_in_range.
    destruct s; discriminate.
  - destruct Hu as [->|[->|(p & e' & ->)]].
    + cbn [fsub SFsub]. rewrite clampJuice_id by exact Hr. apply fle_refl_finite.
    + exact HF.
    + unfold fsub. cbn [SFsub cond_Zopp Z.opp Z.sub Z.add binary_normalize].
      set (ez := Z.min e e').
      pose proof (shl_align_spec m e ez) as [Hm _]. cbv zeta in Hm.
      replace (Z.max (e - ez) 0) with (e - ez) in Hm by (unfold ez; lia).
      set (a := fst (shl_align m e ez)) in *.
      set (b := fst (shl_align p e' ez)) in *.
      destruct (valid_canon fprec femax false m e Hv) as [Hc He].
      assert (Hle : (Qval (Zpos m) e <= Qval (Zpos (a + b)) ez)%Q).
      { assert (E : (Qval (Zpos a) ez == Qval (Zpos m) e)%Q).
        { rewrite Hm, Qval_scale by (unfold ez; lia).
          replace (ez + (e - ez)) with e by lia. reflexivity. }
        rewrite <- E. apply Qval_le. lia. }
      destruct (binary_round_valid fprec femax fprec_pos false (a + b) ez) as [Hvr _].
      destruct (binary_round_lower fprec femax fprec_pos false (a + b) ez (Zpos m) e
                  ltac:(lia) Hc Hle) as [E|(q & e'' & E & Hq)];
        rewrite E in Hvr |- *.
      * exact HF.
      * unfold clampJuice.
        change (flt (S754_finite false q e'') fzero) with false. cbv iota.
        destruct (flt BATTERY_FULL_CAPACITY (S754_finite false q e'')); [exact HF|].
        apply (SFleb_Qval fprec femax); assumption.
Qed.

Lemma fmul_negative_signed (x y : float) :
  valid32 x -> valid32 y -> flt x fzero = true -> flt fzero y = true ->
  signed true (fmul x y) /\ valid32 (fmul x y).
Proof.
  intros Hx Hy Hnx Hpy.
  split; [|apply SFmul_valid; [exact fprec_pos|exact fprec_emax|exact Hx|exact Hy]].
  unfold flt, SFltb, fzero in Hnx, Hpy.
  destruct x as [sx|sx| |sx mx ex]; cbn in Hnx; try discriminate;
    destruct sx; try discriminate;
    destruct y as [sy|sy| |sy my ey]; cbn in Hpy; try discriminate;
    destruct sy; try discriminate; unfold signed, fmul; cbn [SFmul xorb]; eauto.
  destruct (SFmul_rounded fprec femax fprec_pos fprec_emax true false mx my ex ey Hx Hy)
    as [Hr _].
  apply rounded_cases in Hr as [_ Hc]. exact Hc.
Qed.

Lemma deadZone_valid (sk : Sketch) (noLoad csv : float) :
  valid32 (deadZone sk (computeAmps noLoad csv)).
Proof.
  unfold deadZone.
  destruct (deadZoneEnabled sk && flt (fabs (computeAmps noLoad csv))
                                      (CURRENT_NOISE_THRESHOLD sk));
    [reflexivity|apply SFdiv_valid; exact fprec_pos].
Qed.

End ChargeFacts.
Import ChargeFacts.

(** X12 (a charging current never lowers the estimate).  When the current
    of a tick, after the filter, is negative -- the sensor voltage above the
    zero point, the battery being charged -- the remaining capacity after
    the tick is not below the one before. *)
Theorem charging_never_lowers (sk : Sketch) (now : Z) (x : Sensors) (s : State) :
  valid32 (batteryJuiceLeft s) -> in_range (batteryJuiceLeft s) ->
  flt (deadZone sk (computeAmps (noLoadVoltage s)
                      (readAveragedCurrentVoltage sk (currentSamples x))))
      fzero = true ->
  fle (batteryJuiceLeft s) (batteryJuiceLeft (fst (tick sk now x s))) = true.
Proof.
  intros Hv Hr Hneg. rewrite tick_juice.
  destruct (fmul_negative_signed
              (deadZone sk (computeAmps (noLoadVoltage s)
                              (readAveragedCurrentVoltage sk (currentSamples x))))
              (timePassedInHours sk)) as [Hs Hvu].
  - apply deadZone_valid.
  - destruct sk; reflexivity.
  - exact Hneg.
  - destruct sk; reflexivity.
  - apply charge_ge; assumption.
Qed.

Lemma charging_never_lowers_witness :
  valid32 (batteryJuiceLeft halfState) /\ in_range (batteryJuiceLeft halfState) /\
  flt (deadZone SketchA (computeAmps (noLoadVoltage halfState)
          (readAveragedCurrentVoltage SketchA (currentSamples (sensorsAt 2100)))))
      fzero = true /\
  fle (batteryJuiceLeft halfState)
      (batteryJuiceLeft (fst (tick SketchA 4000 (sensorsAt 2100) halfState))) = true.
Proof.
  assert (H1 : valid32 (batteryJuiceLeft halfState)) by (vm_compute; reflexivity).
  assert (H2 : in_range (batteryJuiceLeft halfState)) by (split; vm_compute; reflexivity).
  assert (H3 : flt (deadZone SketchA (computeAmps (noLoadVoltage halfState)
          (readAveragedCurrentVoltage SketchA (currentSamples (sensorsAt 2100)))))
      fzero = true) by (vm_compute; reflexivity).
  split; [exact H1|]. split; [exact H2|]. split; [exact H3|].
  exact (charging_never_lowers SketchA 4000 (sensorsAt 2100) halfState H1 H2 H3).
Defined.

Module SaturationFacts.

Lemma fle_antisym_full (x : float) :
  fle x BATTERY_FULL_CAPACITY = true -> fle BATTERY_FULL_CAPACITY x = true ->
  x = BATTERY_FULL_CAPACITY.
Proof.
  unfold fle, SFleb, BATTERY_FULL_CAPACITY. intros H1 H2.
  destruct x as [s|s| |s m e]; try discriminate.
  - destruct s; discriminate.
  - destruct s; [discriminate|].
    cbn [SFcompare] in H1, H2.
    rewrite (Z.compare_antisym e (-20)) in H2.
    destruct (e ?= -20) eqn:Ee; cbn [CompOpp] in H2; try discriminate.
    apply Z.compare_eq in Ee.
    pose proof (Pos.compare_cont_antisym m 12650021 Eq) as A. cbn [CompOpp] in A.
    rewrite <- A in H2.
    destruct (Pos.compare_cont Eq m 12650021) eqn:Em; cbn [CompOpp] in H2;
      try discriminate.
    apply (Pos.compare_eq m 12650021) in Em. subst. reflexivity.
Qed.

Lemma discharge_from_empty (used : float) :
  signed false used -> clampJuice (fsub fzero used) = fzero.
Proof. intros [->|[->|(p & e & ->)]]; reflexivity. Qed.

Lemma charge_from_full (used : float) :
  valid32 used -> signed true used ->
  clampJuice (fsub BATTERY_FULL_CAPACITY used) = BATTERY_FULL_CAPACITY.
Proof.
  intros Hv Hs. apply fle_antisym_full.
  - apply clampJuice_in_range.
    apply SFsub_finite_not_nan; [exact fprec_pos|discriminate| |left; discriminate].
    destruct Hs as [->|[->|(p & e & ->)]]; discriminate.
  - apply charge_ge; [reflexivity|exact in_range_full|exact Hv|exact Hs].
Qed.

End SaturationFacts.
Import SaturationFacts.

(** X13 (the estimate saturates).  A tick with a positive current (a
    discharge) leaves an empty battery at exactly 0 Ah, and a tick with a
    negative current (a charge) leaves a full battery at exactly the full
    capacity: the clamp holds the estimate at both ends. *)
Theorem estimate_saturates (sk : Sketch) (now : Z) (x : Sensors) (s : State) :
  let amps := deadZone sk (computeAmps (noLoadVoltage s)
                (readAveragedCurrentVoltage sk (currentSamples x))) in
  (batteryJuiceLeft s = fzero -> flt fzero amps = true ->
   batteryJuiceLeft (fst (tick sk now x s)) = fzero) /\
  (batteryJuiceLeft s = BATTERY_FULL_CAPACITY -> flt amps fzero = true ->
   batteryJuiceLeft (fst (tick sk now x s)) = BATTERY_FULL_CAPACITY).
Proof.
  intros amps. split; intros Hj Ha; rewrite tick_juice, Hj; fold amps.
  - apply discharge_from_empty. apply fmul_positive_signed.
    + apply deadZone_valid.
    + destruct sk; reflexivity.
    + exact Ha.
    + destruct sk; reflexivity.
  - destruct (fmul_negative_signed amps (timePassedInHours sk)) as [Hs Hv].
    + apply deadZone_valid.
    + destruct sk; reflexivity.
    + exact Ha.
    + destruct sk; reflexivity.
    + apply charge_from_full; assumption.
Qed.

Lemma estimate_saturates_witness :
  batteryJuiceLeft (fst (tick SketchA 4000 (sensorsAt 2000) emptyState)) = fzero /\
  batteryJuiceLeft (fst (tick SketchA 4000 (sensorsAt 2100) fullState))
  = BATTERY_FULL_CAPACITY.
Proof.
  assert (H1 : flt fzero (deadZone SketchA (computeAmps (noLoadVoltage emptyState)
                 (readAveragedCurrentVoltage SketchA (currentSamples (sensorsAt 2000)))))
               = true) by (vm_compute; reflexivity).
  assert (H2 : flt (deadZone SketchA (computeAmps (noLoadVoltage fullState)
                 (readAveragedCurrentVoltage SketchA (currentSamples (sensorsAt 2100)))))
                   fzero = true) by (vm_compute; reflexivity).
  split.
  - exact (proj1 (estimate_saturates SketchA 4000 (sensorsAt 2000) emptyState)
             eq_refl H1).
  - exact (proj2 (estimate_saturates SketchA 4000 (sensorsAt 2100) fullState)
             eq_refl H2).
Defined.
